(** * Sign-in block: a shallow embedding of [blocks/sign-in/sign-in.js]

    The development follows the source file top to bottom:
    - JavaScript strings (sequences of UTF-16 code units), [trim], and the
      two regular expressions of the file;
    - [isValidEmail];
    - the form's DOM, local storage, timers and the submit listener that
      [attachSignInHandler] registers;
    - [showSuccessMessage] and [showErrorMessage];
    - the path computed by [addCreateAccountLink]. *)

From Stdlib Require Import ZArith NArith Ascii String List Bool Lia.
From stdpp Require Import base decidable countable gmap list.

Import ListNotations.
Local Open Scope N_scope.

(** ** Strings *)

(** A JavaScript string is a sequence of UTF-16 code units. *)
Abbreviation jsstring := (list N).

(** String literals of the source, written as Rocq strings. *)
Definition lit (s : string) : jsstring :=
  List.map N_of_ascii (list_ascii_of_string s).

(** [WhiteSpace] and [LineTerminator] of ECMAScript: the code units that
    [String.prototype.trim] strips and that the class [\s] matches. *)
Definition isWhiteSpace (c : N) : bool :=
  ((9 <=? c) && (c <=? 13))        (* TAB LF VT FF CR *)
  || (c =? 32)                     (* SPACE *)
  || (c =? 160)                    (* NO-BREAK SPACE *)
  || (c =? 5760)                   (* OGHAM SPACE MARK *)
  || ((8192 <=? c) && (c <=? 8202)) (* EN QUAD .. HAIR SPACE *)
  || (c =? 8232) || (c =? 8233)    (* LINE / PARAGRAPH SEPARATOR *)
  || (c =? 8239) || (c =? 8287)    (* NARROW NBSP, MEDIUM MATH SPACE *)
  || (c =? 12288)                  (* IDEOGRAPHIC SPACE *)
  || (c =? 65279).                 (* ZERO WIDTH NO-BREAK SPACE *)

Fixpoint trimStart (s : jsstring) : jsstring :=
  match s with
  | [] => []
  | c :: t => if isWhiteSpace c then trimStart t else s
  end.

Definition trimEnd (s : jsstring) : jsstring := rev (trimStart (rev s)).

(** [String.prototype.trim]. *)
Definition trim (s : jsstring) : jsstring := trimEnd (trimStart s).

Definition jsstring_eqb (a b : jsstring) : bool := bool_decide (a = b).

(** ** Regular expressions

    The two regular expressions of the file use character classes,
    concatenation, [+], [?] and the anchors [^] and [$] only.  The anchors
    are not constructors: they are taken by the entry points [regex_test]
    (pattern between [^] and [$]) and [replace_regex_end] (pattern ending
    in [$]). *)

Inductive regex : Type :=
| RNone                          (* matches nothing *)
| REps                           (* matches the empty string *)
| RClass (p : N -> bool)         (* one code unit of a class *)
| RSeq (r1 r2 : regex)
| RAlt (r1 r2 : regex)
| RStar (r : regex).

Definition RPlus (r : regex) : regex := RSeq r (RStar r).
Definition ROpt (r : regex) : regex := RAlt r REps.
Definition RChar (c : N) : regex := RClass (N.eqb c).

Fixpoint RLit (s : jsstring) : regex :=
  match s with
  | [] => REps
  | c :: t => RSeq (RChar c) (RLit t)
  end.

Fixpoint nullable (r : regex) : bool :=
  match r with
  | RNone => false
  | REps => true
  | RClass _ => false
  | RSeq r1 r2 => nullable r1 && nullable r2
  | RAlt r1 r2 => nullable r1 || nullable r2
  | RStar _ => true
  end.

Fixpoint deriv (c : N) (r : regex) : regex :=
  match r with
  | RNone => RNone
  | REps => RNone
  | RClass p => if p c then REps else RNone
  | RSeq r1 r2 =>
      if nullable r1
      then RAlt (RSeq (deriv c r1) r2) (deriv c r2)
      else RSeq (deriv c r1) r2
  | RAlt r1 r2 => RAlt (deriv c r1) (deriv c r2)
  | RStar r1 => RSeq (deriv c r1) (RStar r1)
  end.

(** [/^r$/.test(s)]: the whole of [s] is a word of [r]. *)
Fixpoint regex_test (r : regex) (s : jsstring) : bool :=
  match s with
  | [] => nullable r
  | c :: t => regex_test (deriv c r) t
  end.

(** The language of a regular expression, as a relation. *)
Inductive Matches : regex -> jsstring -> Prop :=
| MEps : Matches REps []
| MClass p c : p c = true -> Matches (RClass p) [c]
| MSeq r1 r2 s1 s2 :
    Matches r1 s1 -> Matches r2 s2 -> Matches (RSeq r1 r2) (s1 ++ s2)
| MAltL r1 r2 s : Matches r1 s -> Matches (RAlt r1 r2) s
| MAltR r1 r2 s : Matches r2 s -> Matches (RAlt r1 r2) s
| MStarNil r : Matches (RStar r) []
| MStarCons r s1 s2 :
    Matches r s1 -> Matches (RStar r) s2 -> Matches (RStar r) (s1 ++ s2).

(** ** JavaScript values, as far as [isValidEmail] inspects them *)

Inductive value : Type :=
| VUndefined
| VNull
| VBoolean (b : bool)
| VNumber (z : Z)                (* integral numbers; NaN is falsy like 0 *)
| VString (s : jsstring)
| VObject.

(** [ToBoolean]. *)
Definition truthy (v : value) : bool :=
  match v with
  | VUndefined | VNull => false
  | VBoolean b => b
  | VNumber z => negb (Z.eqb z 0)
  | VString s => negb (jsstring_eqb s [])
  | VObject => true
  end.

Definition is_string (v : value) : bool :=
  match v with VString _ => true | _ => false end.

(** ** [isValidEmail] *)

Definition code_AT : N := 64.
Definition code_DOT : N := 46.

(** The class [[^\s@]]. *)
Definition notSpaceAt (c : N) : bool :=
  negb (isWhiteSpace c || (c =? code_AT)).

(** [/^[^\s@]+@[^\s@]+\.[^\s@]+$/] *)
Definition emailRegex : regex :=
  RSeq (RPlus (RClass notSpaceAt))
    (RSeq (RChar code_AT)
       (RSeq (RPlus (RClass notSpaceAt))
          (RSeq (RChar code_DOT)
             (RPlus (RClass notSpaceAt))))).

Definition isValidEmail (email : value) : bool :=
  if negb (truthy email) || negb (is_string email) then false
  else
    match email with
    | VString s => regex_test emailRegex (trim s)
    | _ => false
    end.

(** ** Builtins whose tables are outside the repository

    [String.prototype.toLowerCase] needs the Unicode case tables and
    [Date.prototype.toISOString] the calendar; the listener is written
    against this interface. *)

Class Builtins : Type := {
  toLowerCase : jsstring -> jsstring;
  toISOString : Z -> jsstring
}.

(** ** The DOM of the form *)

Record element : Type := {
  eid : nat;                     (* identity of the node *)
  tagName : jsstring;
  classList : list jsstring;
  attr_name : option jsstring;
  attr_type : option jsstring;
  evalue : jsstring;
  textContent : jsstring;
  disabled : bool
}.

(** The descendants of the form element, as a forest in first-child /
    next-sibling form; document order is: node, children, siblings. *)
Inductive forest : Type :=
| FNil
| FNode (e : element) (children : forest) (siblings : forest).

Definition selector := element -> bool.

(** [.form-message] *)
Definition sel_form_message : selector :=
  fun e => bool_decide (lit "form-message" ∈ classList e).

(** [input[name="email"]] *)
Definition sel_input_email : selector :=
  fun e => jsstring_eqb (tagName e) (lit "input")
           && bool_decide (attr_name e = Some (lit "email")).

(** [input[name="password"]] *)
Definition sel_input_password : selector :=
  fun e => jsstring_eqb (tagName e) (lit "input")
           && bool_decide (attr_name e = Some (lit "password")).

(** [button[type="submit"]] *)
Definition sel_submit_button : selector :=
  fun e => jsstring_eqb (tagName e) (lit "button")
           && bool_decide (attr_type e = Some (lit "submit")).

(** [form.querySelector(sel)]: the first match in document order. *)
Fixpoint querySelector (sel : selector) (f : forest) : option element :=
  match f with
  | FNil => None
  | FNode e c s =>
      if sel e then Some e
      else match querySelector sel c with
           | Some x => Some x
           | None => querySelector sel s
           end
  end.

(** [form.querySelectorAll(sel)], in document order. *)
Fixpoint querySelectorAll (sel : selector) (f : forest) : list element :=
  match f with
  | FNil => []
  | FNode e c s =>
      (if sel e then [e] else [])
        ++ querySelectorAll sel c ++ querySelectorAll sel s
  end.

(** [form.querySelectorAll(sel).forEach(n => n.remove())]: every match
    leaves the form together with its subtree. *)
Fixpoint remove_all (sel : selector) (f : forest) : forest :=
  match f with
  | FNil => FNil
  | FNode e c s =>
      if sel e then remove_all sel s
      else FNode e (remove_all sel c) (remove_all sel s)
  end.

(** [ref.parentNode.insertBefore(n, ref)] where [ref] is the first match
    of [sel]; [None] when there is no match. *)
Fixpoint insertBefore (sel : selector) (n : element) (f : forest)
  : option forest :=
  match f with
  | FNil => None
  | FNode e c s =>
      if sel e then Some (FNode n FNil (FNode e c s))
      else match insertBefore sel n c with
           | Some c' => Some (FNode e c' s)
           | None =>
               match insertBefore sel n s with
               | Some s' => Some (FNode e c s')
               | None => None
               end
           end
  end.

(** [form.appendChild(n)]: [n] becomes the last child of the form. *)
Fixpoint appendChild (n : element) (f : forest) : forest :=
  match f with
  | FNil => FNode n FNil FNil
  | FNode e c s => FNode e c (appendChild n s)
  end.

(** An assignment to a property of the first match of [sel]. *)
Fixpoint update_first (sel : selector) (g : element -> element) (f : forest)
  : option forest :=
  match f with
  | FNil => None
  | FNode e c s =>
      if sel e then Some (FNode (g e) c s)
      else match update_first sel g c with
           | Some c' => Some (FNode e c' s)
           | None =>
               match update_first sel g s with
               | Some s' => Some (FNode e c s')
               | None => None
               end
           end
  end.

(** An assignment to a property of every node satisfying [sel]. *)
Fixpoint update_all (sel : selector) (g : element -> element) (f : forest)
  : forest :=
  match f with
  | FNil => FNil
  | FNode e c s =>
      FNode (if sel e then g e else e) (update_all sel g c) (update_all sel g s)
  end.

Definition set_disabled (b : bool) (e : element) : element :=
  {| eid := eid e; tagName := tagName e; classList := classList e;
     attr_name := attr_name e; attr_type := attr_type e;
     evalue := evalue e; textContent := textContent e; disabled := b |}.

Definition set_value (v : jsstring) (e : element) : element :=
  {| eid := eid e; tagName := tagName e; classList := classList e;
     attr_name := attr_name e; attr_type := attr_type e;
     evalue := v; textContent := textContent e; disabled := disabled e |}.

Definition has_id (i : nat) : selector := fun e => Nat.eqb (eid e) i.

(** ** Local storage, timers, events: the world the listener acts on *)

Inductive exn : Type :=
| QuotaExceededError             (* thrown by [Storage.setItem] *)
| TypeError                      (* a property read on [null] *)
| SecurityError.                 (* thrown by the [localStorage] getter *)

Record login_event : Type := {
  ev_type : jsstring;
  ev_bubbles : bool;
  detail_email : jsstring;
  detail_timestamp : jsstring
}.

(** What a [setTimeout] callback of this file does when it fires. *)
Inductive callback : Type :=
| RemoveNode (id : nat)          (* [messageEl.remove()] *)
| Navigate (href : jsstring).    (* [window.location.href = href] *)

Record timer : Type := { tm_callback : callback; tm_delay : Z }.

(** Calls that reach outside the form, in program order. *)
Inductive effect : Type :=
| EGetItem (key : jsstring)
| ESetItem (key val : jsstring)
| EDispatch (ev : login_event)
| EConsoleLog (entered registered : jsstring) (same : bool)
| EConsoleError (e : exn).

Record world : Type := {
  storage : gmap jsstring jsstring;  (* [localStorage] *)
  storage_full : bool;           (* [setItem] throws [QuotaExceededError] *)
  clock : Z;                     (* time value of [new Date()] *)
  form : forest;                 (* descendants of the [form] element *)
  next_id : nat;                 (* identity of the next created node *)
  focused : option nat;          (* [document.activeElement] *)
  timers : list timer;           (* pending [setTimeout] callbacks *)
  href : jsstring;               (* [window.location.href] *)
  trace : list effect
}.

Definition with_storage (m : gmap jsstring jsstring) (w : world) : world :=
  {| storage := m; storage_full := storage_full w; clock := clock w;
     form := form w; next_id := next_id w; focused := focused w;
     timers := timers w; href := href w; trace := trace w |}.

Definition with_form (f : forest) (w : world) : world :=
  {| storage := storage w; storage_full := storage_full w; clock := clock w;
     form := f; next_id := next_id w; focused := focused w;
     timers := timers w; href := href w; trace := trace w |}.

Definition with_next_id (n : nat) (w : world) : world :=
  {| storage := storage w; storage_full := storage_full w; clock := clock w;
     form := form w; next_id := n; focused := focused w;
     timers := timers w; href := href w; trace := trace w |}.

Definition with_focused (o : option nat) (w : world) : world :=
  {| storage := storage w; storage_full := storage_full w; clock := clock w;
     form := form w; next_id := next_id w; focused := o;
     timers := timers w; href := href w; trace := trace w |}.

Definition with_timers (l : list timer) (w : world) : world :=
  {| storage := storage w; storage_full := storage_full w; clock := clock w;
     form := form w; next_id := next_id w; focused := focused w;
     timers := l; href := href w; trace := trace w |}.

Definition with_href (h : jsstring) (w : world) : world :=
  {| storage := storage w; storage_full := storage_full w; clock := clock w;
     form := form w; next_id := next_id w; focused := focused w;
     timers := timers w; href := h; trace := trace w |}.

Definition with_trace (t : list effect) (w : world) : world :=
  {| storage := storage w; storage_full := storage_full w; clock := clock w;
     form := form w; next_id := next_id w; focused := focused w;
     timers := timers w; href := href w; trace := t |}.

(** ** A state and exception monad for the listener *)

Inductive completion (A : Type) : Type :=
| Normal (a : A)
| Throw (e : exn).
Arguments Normal {A} a.
Arguments Throw {A} e.

Definition M (A : Type) : Type := world -> completion A * world.

#[global] Instance M_ret : MRet M := fun A a w => (Normal a, w).

#[global] Instance M_bind : MBind M := fun A B k m w =>
  match m w with
  | (Normal a, w') => k a w'
  | (Throw e, w') => (Throw e, w')
  end.

Definition throw {A} (e : exn) : M A := fun w => (Throw e, w).

(** [try { body } catch (error) { handler }] *)
Definition try_catch {A} (body : M A) (handler : exn -> M A) : M A :=
  fun w =>
    match body w with
    | (Normal a, w') => (Normal a, w')
    | (Throw e, w') => handler e w'
    end.

Definition modify (g : world -> world) : M unit := fun w => (Normal tt, g w).
Definition gets {A} (g : world -> A) : M A := fun w => (Normal (g w), w).
Definition emit (e : effect) : M unit :=
  modify (fun w => with_trace (trace w ++ [e]) w).

(** [localStorage.getItem(key)] *)
Definition getItem (key : jsstring) : M (option jsstring) :=
  emit (EGetItem key);; gets (fun w => storage w !! key).

(** [localStorage.setItem(key, val)] *)
Definition setItem (key val : jsstring) : M unit :=
  emit (ESetItem key val);;
  full ← gets storage_full;
  if full : bool then throw QuotaExceededError
  else modify (fun w => with_storage (<[key := val]> (storage w)) w).

(** [document.dispatchEvent(ev)] *)
Definition dispatchEvent (ev : login_event) : M unit := emit (EDispatch ev).

(** [setTimeout(cb, delay)] *)
Definition setTimeout (cb : callback) (delay : Z) : M unit :=
  modify (fun w =>
    with_timers (timers w ++ [{| tm_callback := cb; tm_delay := delay |}]) w).

(** [el.focus()].  The model moves the focus whenever [focus] is called,
    which is what the browser does on a focusable node: one that is
    enabled, not hidden and still in the document.  Statements about the
    focus assume it of the node concerned ([focusable] below); rendering is
    outside [world]. *)
Definition focus (e : element) : M unit :=
  modify (with_focused (Some (eid e))).

(** [document.createElement("div")] followed by the assignments to
    [className] and [textContent]; [style.cssText] is presentation only
    and is not part of [element]. *)
Definition createMessage (kind message : jsstring) : M element :=
  i ← gets next_id;
  modify (with_next_id (S i));;
  mret {| eid := i; tagName := lit "div";
          classList := [lit "form-message"; kind];
          attr_name := None; attr_type := None;
          evalue := []; textContent := message; disabled := false |}.

Definition formQuerySelector (sel : selector) : M (option element) :=
  gets (fun w => querySelector sel (form w)).

Definition modify_form (g : forest -> forest) : M unit :=
  modify (fun w => with_form (g (form w)) w).

(** ** [showSuccessMessage] and [showErrorMessage] *)

Definition showSuccessMessage (message : jsstring) : M unit :=
  (* Remove any existing messages *)
  modify_form (remove_all sel_form_message);;
  messageEl ← createMessage (lit "success") message;
  submitButton ← formQuerySelector sel_submit_button;
  match submitButton with
  | Some _ =>
      modify_form (fun f =>
        default f (insertBefore sel_submit_button messageEl f));;
      modify_form (fun f =>
        default f (update_first sel_submit_button (set_disabled true) f))
  | None => modify_form (appendChild messageEl)
  end.

Definition showErrorMessage (message : jsstring) : M unit :=
  (* Remove any existing messages *)
  modify_form (remove_all sel_form_message);;
  messageEl ← createMessage (lit "error") message;
  submitButton ← formQuerySelector sel_submit_button;
  match submitButton with
  | Some _ =>
      modify_form (fun f =>
        default f (insertBefore sel_submit_button messageEl f))
  | None => modify_form (appendChild messageEl)
  end;;
  (* Auto-remove error message after 5 seconds *)
  setTimeout (RemoveNode (eid messageEl)) 5000.

(** ** The submit listener of [attachSignInHandler] *)

(** The spec's name for the branch a submission ends in. *)
Inductive AuthOutcome : Type :=
| Accepted
| RejectedInvalidEmail
| RejectedEmptyPassword
| RejectedNoAccount
| RejectedMismatch.

Definition REGISTERED_EMAIL_KEY : jsstring :=
  lit "com.adobe.reactor.dataElements.Profile - Email".

Definition SESSION_FLAG_KEY : jsstring := lit "luma_user_logged_in".

(** The class of the asterisk, the double quote and the apostrophe. *)
Definition asteriskOrQuote (c : N) : bool :=
  (c =? 42) || (c =? 34) || (c =? 39).

(** [s.replace(/[cls]/g, rep)] for a class of single code units. *)
Definition replace_class_all (cls : N -> bool) (rep s : jsstring) : jsstring :=
  flat_map (fun c => if cls c then rep else [c]) s.

(** [null] or a string, as [getItem] returns it. *)
Definition of_nullable (o : option jsstring) : value :=
  match o with
  | Some s => VString s
  | None => VNull
  end.

(** The listener has no return value; the model returns the branch it
    left through, [None] when the two inputs were not found.
    [event.preventDefault()] acts on the event object alone and has no
    counterpart in [world]. *)
Definition submitListener `{Builtins} : M (option AuthOutcome) :=
  (* Get form values *)
  emailInput ← formQuerySelector sel_input_email;
  passwordInput ← formQuerySelector sel_input_password;
  match emailInput, passwordInput with
  | Some emailInput, Some passwordInput =>
      let enteredEmail := trim (evalue emailInput) in
      let enteredPassword := evalue passwordInput in
      (* Validate email format *)
      if negb (isValidEmail (VString enteredEmail)) then
        showErrorMessage (lit "Please enter a valid email address");;
        focus emailInput;;
        mret (Some RejectedInvalidEmail)
      (* Validate password is not empty *)
      else if negb (truthy (VString enteredPassword))
              || jsstring_eqb (trim enteredPassword) [] then
        showErrorMessage (lit "Please enter your password");;
        focus passwordInput;;
        mret (Some RejectedEmptyPassword)
      else
        (* Check localStorage for registered user *)
        registeredEmail ← getItem REGISTERED_EMAIL_KEY;
        (* Clean the stored email *)
        let registeredEmail :=
          if truthy (of_nullable registeredEmail)
          then (fun s => trim (replace_class_all asteriskOrQuote [] s))
                 <$> registeredEmail
          else registeredEmail in
        if negb (truthy (of_nullable registeredEmail))
           || negb (isValidEmail (of_nullable registeredEmail)) then
          showErrorMessage
            (lit "No account found. Please create an account first.");;
          mret (Some RejectedNoAccount)
        else
          match registeredEmail with
          | None => throw TypeError      (* [null.toLowerCase()] *)
          | Some registeredEmail =>
              emit (EConsoleLog enteredEmail registeredEmail
                      (jsstring_eqb (toLowerCase enteredEmail)
                                    (toLowerCase registeredEmail)));;
              (* Check if entered email matches registered email *)
              if negb (jsstring_eqb (toLowerCase enteredEmail)
                                    (toLowerCase registeredEmail)) then
                showErrorMessage
                  (lit "Email not found. Please check your email or create an account.");;
                focus emailInput;;
                mret (Some RejectedMismatch)
              else
                try_catch
                  ((* Set authentication flag in localStorage *)
                   setItem SESSION_FLAG_KEY (lit "true");;
                   (* Dispatch sign-in event *)
                   now ← gets clock;
                   dispatchEvent
                     {| ev_type := lit "login"; ev_bubbles := true;
                        detail_email := enteredEmail;
                        detail_timestamp := toISOString now |};;
                   (* Show success message *)
                   showSuccessMessage (lit "Sign-in successful! Redirecting...");;
                   (* Redirect to home page *)
                   setTimeout (Navigate (lit "/")) 1500;;
                   mret (Some Accepted))
                  (fun error =>
                     emit (EConsoleError error);;
                     showErrorMessage (lit "Sign-in failed. Please try again.");;
                     mret (Some Accepted))
          end
  | _, _ =>
      showErrorMessage (lit "Form fields not found");;
      mret None
  end.

(** ** The listener when access to storage may be denied

    [localStorage] is a getter of the window: where the browser denies
    the document access to storage, evaluating it throws [SecurityError]
    before any method is called.  [submitListener] above is the listener
    where storage is accessible; [submitListenerIn] makes the evaluation
    of [localStorage] at lines 130 and 167 explicit. *)

Definition localStorage (denied : bool) : M unit :=
  if denied then throw SecurityError else mret tt.

Definition submitListenerIn `{Builtins} (denied : bool)
  : M (option AuthOutcome) :=
  (* Get form values *)
  emailInput ← formQuerySelector sel_input_email;
  passwordInput ← formQuerySelector sel_input_password;
  match emailInput, passwordInput with
  | Some emailInput, Some passwordInput =>
      let enteredEmail := trim (evalue emailInput) in
      let enteredPassword := evalue passwordInput in
      (* Validate email format *)
      if negb (isValidEmail (VString enteredEmail)) then
        showErrorMessage (lit "Please enter a valid email address");;
        focus emailInput;;
        mret (Some RejectedInvalidEmail)
      (* Validate password is not empty *)
      else if negb (truthy (VString enteredPassword))
              || jsstring_eqb (trim enteredPassword) [] then
        showErrorMessage (lit "Please enter your password");;
        focus passwordInput;;
        mret (Some RejectedEmptyPassword)
      else
        (* Check localStorage for registered user *)
        localStorage denied;;
        registeredEmail ← getItem REGISTERED_EMAIL_KEY;
        (* Clean the stored email *)
        let registeredEmail :=
          if truthy (of_nullable registeredEmail)
          then (fun s => trim (replace_class_all asteriskOrQuote [] s))
                 <$> registeredEmail
          else registeredEmail in
        if negb (truthy (of_nullable registeredEmail))
           || negb (isValidEmail (of_nullable registeredEmail)) then
          showErrorMessage
            (lit "No account found. Please create an account first.");;
          mret (Some RejectedNoAccount)
        else
          match registeredEmail with
          | None => throw TypeError      (* [null.toLowerCase()] *)
          | Some registeredEmail =>
              emit (EConsoleLog enteredEmail registeredEmail
                      (jsstring_eqb (toLowerCase enteredEmail)
                                    (toLowerCase registeredEmail)));;
              (* Check if entered email matches registered email *)
              if negb (jsstring_eqb (toLowerCase enteredEmail)
                                    (toLowerCase registeredEmail)) then
                showErrorMessage
                  (lit "Email not found. Please check your email or create an account.");;
                focus emailInput;;
                mret (Some RejectedMismatch)
              else
                try_catch
                  ((* Set authentication flag in localStorage *)
                   localStorage denied;;
                   setItem SESSION_FLAG_KEY (lit "true");;
                   (* Dispatch sign-in event *)
                   now ← gets clock;
                   dispatchEvent
                     {| ev_type := lit "login"; ev_bubbles := true;
                        detail_email := enteredEmail;
                        detail_timestamp := toISOString now |};;
                   (* Show success message *)
                   showSuccessMessage (lit "Sign-in successful! Redirecting...");;
                   (* Redirect to home page *)
                   setTimeout (Navigate (lit "/")) 1500;;
                   mret (Some Accepted))
                  (fun error =>
                     emit (EConsoleError error);;
                     showErrorMessage (lit "Sign-in failed. Please try again.");;
                     mret (Some Accepted))
          end
  | _, _ =>
      showErrorMessage (lit "Form fields not found");;
      mret None
  end.

(** ** The page between submissions *)

Definition run_callback (cb : callback) (w : world) : world :=
  match cb with
  | RemoveNode i => with_form (remove_all (has_id i) (form w)) w
  | Navigate h => with_href h w
  end.

Inductive action : Type :=
| UserTypes (id : nat) (v : jsstring)  (* the user edits an input *)
| Submit                               (* the form's submit event *)
| TimerFires (n : nat).                (* the n-th pending timer fires *)

Definition step `{Builtins} (a : action) (w : world) : world :=
  match a with
  | UserTypes i v => with_form (update_all (has_id i) (set_value v) (form w)) w
  | Submit => snd (submitListener w)
  | TimerFires n =>
      match timers w !! n with
      | Some t => run_callback (tm_callback t) (with_timers (delete n (timers w)) w)
      | None => w
      end
  end.

Definition run `{Builtins} (l : list action) (w : world) : world :=
  fold_left (fun w a => step a w) l w.

(** ** The link target of [addCreateAccountLink] *)

Fixpoint startsWith (pat s : jsstring) : bool :=
  match pat, s with
  | [], _ => true
  | _ :: _, [] => false
  | a :: pat', b :: s' => (a =? b) && startsWith pat' s'
  end.

(** [s.replace(pat, rep)] for a string [pat]: the first occurrence only.
    [rep] holds no [$], so it is inserted as it is. *)
Fixpoint replace_string (pat rep s : jsstring) : jsstring :=
  if startsWith pat s then rep ++ drop (length pat) s
  else match s with
       | [] => []
       | c :: t => c :: replace_string pat rep t
       end.

(** [s.replace(/r$/, rep)]: the leftmost position from which [r] matches
    up to the end of [s]. *)
Fixpoint replace_regex_end (r : regex) (rep s : jsstring) : jsstring :=
  if regex_test r s then rep
  else match s with
       | [] => []
       | c :: t => c :: replace_regex_end r rep t
       end.

(** [/\/sign-in(\.html)?$/] *)
Definition signInRegex : regex :=
  RSeq (RLit (lit "/sign-in")) (ROpt (RLit (lit ".html"))).

Definition registrationPath (currentPath : jsstring) (isAuthor : bool)
  : jsstring :=
  if isAuthor then
    (* For author, replace 'sign-in.html' with 'registration.html' *)
    replace_string (lit "/sign-in.html") (lit "/registration.html") currentPath
  else
    (* For EDS publish, replace '/sign-in' with '/registration' *)
    replace_regex_end signInRegex (lit "/registration") currentPath.

(** ** Vocabulary of the statements *)

(** A code unit that is neither whitespace nor the at sign. *)
Definition plain_unit (c : N) : Prop :=
  isWhiteSpace c = false /\ c <> code_AT.

(** One or more plain units, an at sign, one or more plain units, a dot,
    one or more plain units. *)
Definition email_shaped (s : jsstring) : Prop :=
  exists a b c,
    s = a ++ [code_AT] ++ b ++ [code_DOT] ++ c
    /\ a <> [] /\ b <> [] /\ c <> []
    /\ Forall plain_unit a /\ Forall plain_unit b /\ Forall plain_unit c.

(** [pat] occurs in [s] as a contiguous factor. *)
Definition occurs (pat s : jsstring) : Prop :=
  exists a b, s = a ++ pat ++ b.

(** [s.includes(pat)], deciding [occurs]. *)
Fixpoint includes (pat s : jsstring) : bool :=
  startsWith pat s
  || match s with
     | [] => false
     | _ :: t => includes pat t
     end.

(** The node that [showSuccessMessage] and [showErrorMessage] create. *)
Definition message_element (i : nat) (kind message : jsstring) : element :=
  {| eid := i; tagName := lit "div";
     classList := [lit "form-message"; kind];
     attr_name := None; attr_type := None;
     evalue := []; textContent := message; disabled := false |}.

(** Where a new message goes: before the submit button, else last. *)
Definition place_message (m : element) (f : forest) : forest :=
  match insertBefore sel_submit_button m f with
  | Some f' => f'
  | None => appendChild m f
  end.

(** The submit button with further submission disabled. *)
Definition disable_submit (f : forest) : forest :=
  default f (update_first sel_submit_button (set_disabled true) f).

(** The world after [showErrorMessage message]. *)
Definition after_error (message : jsstring) (w : world) : world :=
  with_timers
    (timers w ++ [{| tm_callback := RemoveNode (next_id w); tm_delay := 5000 |}])
    (with_form
       (place_message (message_element (next_id w) (lit "error") message)
          (remove_all sel_form_message (form w)))
       (with_next_id (S (next_id w)) w)).

(** The world after [showSuccessMessage message]. *)
Definition after_success (message : jsstring) (w : world) : world :=
  with_form
    (disable_submit
       (place_message (message_element (next_id w) (lit "success") message)
          (remove_all sel_form_message (form w))))
    (with_next_id (S (next_id w)) w).

(** The messages present in the form. *)
Definition messages (w : world) : list element :=
  querySelectorAll sel_form_message (form w).

(** The two inputs the listener looks up. *)
Definition emailInput (w : world) : option element :=
  querySelector sel_input_email (form w).

Definition passwordInput (w : world) : option element :=
  querySelector sel_input_password (form w).

(** The cleaning of the stored value, as the listener applies it. *)
Definition cleaned (o : option jsstring) : option jsstring :=
  if truthy (of_nullable o)
  then (fun s => trim (replace_class_all asteriskOrQuote [] s)) <$> o
  else o.

Definition append_trace (l : list effect) (w : world) : world :=
  with_trace (trace w ++ l) w.

Definition login_event_of `{Builtins} (enteredEmail : jsstring) (w : world)
  : login_event :=
  {| ev_type := lit "login"; ev_bubbles := true;
     detail_email := enteredEmail;
     detail_timestamp := toISOString (clock w) |}.

(** The listener in closed form: the branch left through and the world
    it leaves; [submitListener_run] proves it equal to the listener. *)
Definition listener_model `{Builtins} (w : world)
  : option AuthOutcome * world :=
  match emailInput w, passwordInput w with
  | Some ei, Some pi =>
      let enteredEmail := trim (evalue ei) in
      let enteredPassword := evalue pi in
      if negb (isValidEmail (VString enteredEmail)) then
        (Some RejectedInvalidEmail,
         with_focused (Some (eid ei))
           (after_error (lit "Please enter a valid email address") w))
      else if negb (truthy (VString enteredPassword))
              || jsstring_eqb (trim enteredPassword) [] then
        (Some RejectedEmptyPassword,
         with_focused (Some (eid pi))
           (after_error (lit "Please enter your password") w))
      else
        let w1 := append_trace [EGetItem REGISTERED_EMAIL_KEY] w in
        let no_account :=
          (Some RejectedNoAccount,
           after_error
             (lit "No account found. Please create an account first.") w1) in
        match cleaned (storage w !! REGISTERED_EMAIL_KEY) with
        | None => no_account
        | Some registeredEmail =>
            if negb (truthy (VString registeredEmail))
               || negb (isValidEmail (VString registeredEmail))
            then no_account
            else
              let same := jsstring_eqb (toLowerCase enteredEmail)
                                       (toLowerCase registeredEmail) in
              let w2 :=
                append_trace [EConsoleLog enteredEmail registeredEmail same]
                  w1 in
              if negb same then
                (Some RejectedMismatch,
                 with_focused (Some (eid ei))
                   (after_error
                      (lit "Email not found. Please check your email or create an account.")
                      w2))
              else
                let w3 :=
                  append_trace [ESetItem SESSION_FLAG_KEY (lit "true")] w2 in
                if storage_full w then
                  (Some Accepted,
                   after_error (lit "Sign-in failed. Please try again.")
                     (append_trace [EConsoleError QuotaExceededError] w3))
                else
                  (Some Accepted,
                   with_timers
                     (timers w ++
                      [{| tm_callback := Navigate (lit "/");
                          tm_delay := 1500 |}])
                     (after_success (lit "Sign-in successful! Redirecting...")
                        (append_trace
                           [EDispatch (login_event_of enteredEmail w)]
                           (with_storage
                              (<[SESSION_FLAG_KEY := lit "true"]> (storage w))
                              w3))))
        end
  | _, _ => (None, after_error (lit "Form fields not found") w)
  end.

(** What the user has entered, as the listener reads it. *)
Definition enteredEmail (w : world) : option jsstring :=
  (fun e => trim (evalue e)) <$> emailInput w.

Definition enteredPassword (w : world) : option jsstring :=
  evalue <$> passwordInput w.

(** Empty or whitespace-only. *)
Definition blank (s : jsstring) : bool := forallb isWhiteSpace s.

Definition code_ASTERISK : N := 42.
Definition code_QUOTE : N := 34.
Definition code_APOSTROPHE : N := 39.

(** Sanitization in the words of the specification: every asterisk and
    quote character deleted, surrounding whitespace trimmed. *)
Definition sanitize_spec (v : jsstring) : jsstring :=
  trim (List.filter
          (fun c => negb ((c =? code_ASTERISK) || (c =? code_QUOTE)
                          || (c =? code_APOSTROPHE))) v).

(** The credential store reader of the specification: the sanitized
    record, absent when the key is missing, the record is empty after
    sanitization, or it is not a valid email. *)
Definition read_credential_spec (st : gmap jsstring jsstring) : option jsstring :=
  match st !! REGISTERED_EMAIL_KEY with
  | None => None
  | Some v =>
      if jsstring_eqb (sanitize_spec v) []
         || negb (isValidEmail (VString (sanitize_spec v)))
      then None
      else Some (sanitize_spec v)
  end.

(** Projections of a trace. *)
Definition storage_reads (t : list effect) : list jsstring :=
  flat_map (fun e => match e with EGetItem k => [k] | _ => [] end) t.

Definition storage_writes (t : list effect) : list (jsstring * jsstring) :=
  flat_map (fun e => match e with ESetItem k v => [(k, v)] | _ => [] end) t.

Definition dispatched (t : list effect) : list login_event :=
  flat_map (fun e => match e with EDispatch ev => [ev] | _ => [] end) t.

(** The decision of the specification (section 4.3), in its order. *)
Definition auth_decision_spec `{Builtins} (email password : jsstring)
    (st : gmap jsstring jsstring) : AuthOutcome :=
  if negb (isValidEmail (VString email)) then RejectedInvalidEmail
  else if blank password then RejectedEmptyPassword
  else match read_credential_spec st with
       | None => RejectedNoAccount
       | Some record =>
           if jsstring_eqb (toLowerCase email) (toLowerCase record)
           then Accepted
           else RejectedMismatch
       end.

(** ** An example environment *)

(** Lower-casing of the ASCII letters; it agrees with
    [String.prototype.toLowerCase] on strings of ASCII code units. *)
Definition asciiLower (c : N) : N :=
  if (65 <=? c) && (c <=? 90) then c + 32 else c.

(** Builtins for the examples; one fixed timestamp stands for the
    calendar computation of [toISOString]. *)
Definition ascii_builtins : Builtins :=
  {| toLowerCase := List.map asciiLower;
     toISOString := fun _ => lit "2025-12-11T09:32:54.000Z" |}.

Definition plain_element (i : nat) (tag : string) : element :=
  {| eid := i; tagName := lit tag; classList := [];
     attr_name := None; attr_type := None;
     evalue := []; textContent := []; disabled := false |}.

Definition input_element (i : nat) (name : string) (v : jsstring) : element :=
  {| eid := i; tagName := lit "input"; classList := [];
     attr_name := Some (lit name); attr_type := None;
     evalue := v; textContent := []; disabled := false |}.

Definition submit_element (i : nat) : element :=
  {| eid := i; tagName := lit "button"; classList := [];
     attr_name := Some (lit "signInButton"); attr_type := Some (lit "submit");
     evalue := []; textContent := []; disabled := false |}.

(** A rendered form: a panel holding the two inputs and the button. *)
Definition demo_form (email password : jsstring) : forest :=
  FNode (plain_element 0 "div")
    (FNode (input_element 1 "email" email) FNil
       (FNode (input_element 2 "password" password) FNil
          (FNode (submit_element 3) FNil FNil)))
    FNil.

Definition demo_world (st : gmap jsstring jsstring) (full : bool)
    (email password : jsstring) : world :=
  {| storage := st; storage_full := full; clock := 1765445574000%Z;
     form := demo_form email password; next_id := 4; focused := None;
     timers := []; href := lit "/en/sign-in"; trace := [] |}.

(** The stored record of the specification's example, quotes included. *)
Definition alice_stored : jsstring :=
  lit "  " ++ [code_QUOTE] ++ lit "alice@example.com" ++ [code_QUOTE]
    ++ lit "  ".

Definition alice_storage : gmap jsstring jsstring :=
  {[ REGISTERED_EMAIL_KEY := alice_stored ]}.

(** ** Positions in the form *)

(** [form.querySelector(sel).previousElementSibling]: [None] when there
    is no match, [Some None] when the match is a first child. *)
Fixpoint previousSiblingOf (sel : selector) (prev : option element)
    (f : forest) : option (option element) :=
  match f with
  | FNil => None
  | FNode e c s =>
      if sel e then Some prev
      else match previousSiblingOf sel None c with
           | Some r => Some r
           | None => previousSiblingOf sel (Some e) s
           end
  end.

(** [form.lastElementChild]. *)
Fixpoint lastChild (f : forest) : option element :=
  match f with
  | FNil => None
  | FNode e _ FNil => Some e
  | FNode _ _ s => lastChild s
  end.

(** The error messages of the listener. *)
Definition error_messages : list jsstring :=
  [lit "Form fields not found";
   lit "Please enter a valid email address";
   lit "Please enter your password";
   lit "No account found. Please create an account first.";
   lit "Email not found. Please check your email or create an account.";
   lit "Sign-in failed. Please try again."].

(** ** Forms that differ in the password entered *)

(** The same node, or the same password input holding another value. *)
Definition element_same_but_password (e1 e2 : element) : Prop :=
  e2 = e1
  \/ (sel_input_password e1 = true /\ e2 = set_value (evalue e2) e1).

Fixpoint forest_same_but_password (f1 f2 : forest) : Prop :=
  match f1, f2 with
  | FNil, FNil => True
  | FNode e1 c1 s1, FNode e2 c2 s2 =>
      element_same_but_password e1 e2
      /\ forest_same_but_password c1 c2
      /\ forest_same_but_password s1 s2
  | _, _ => False
  end.

(** Worlds that agree on everything but the value of password inputs. *)
Definition world_same_but_password (w1 w2 : world) : Prop :=
  storage w1 = storage w2
  /\ storage_full w1 = storage_full w2
  /\ clock w1 = clock w2
  /\ forest_same_but_password (form w1) (form w2)
  /\ next_id w1 = next_id w2
  /\ focused w1 = focused w2
  /\ timers w1 = timers w2
  /\ href w1 = href w2
  /\ trace w1 = trace w2.

(** A selector that does not look at the value of a node. *)
Definition value_blind (sel : selector) : Prop :=
  forall e v, sel (set_value v e) = sel e.

Definition option_related {A} (R : A -> A -> Prop) (o1 o2 : option A) : Prop :=
  match o1, o2 with
  | Some a, Some b => R a b
  | None, None => True
  | _, _ => False
  end.

(** ** Vocabulary of the further properties *)

(** Kind and text of the message the listener shows for each way it can
    end; [failed] says that the storage write threw. *)
Definition shown_message (o : option AuthOutcome) (failed : bool)
  : jsstring * jsstring :=
  match o with
  | None => (lit "error", lit "Form fields not found")
  | Some RejectedInvalidEmail =>
      (lit "error", lit "Please enter a valid email address")
  | Some RejectedEmptyPassword =>
      (lit "error", lit "Please enter your password")
  | Some RejectedNoAccount =>
      (lit "error", lit "No account found. Please create an account first.")
  | Some RejectedMismatch =>
      (lit "error",
       lit "Email not found. Please check your email or create an account.")
  | Some Accepted =>
      if failed
      then (lit "error", lit "Sign-in failed. Please try again.")
      else (lit "success", lit "Sign-in successful! Redirecting...")
  end.


#[global] Instance element_eq_dec : EqDecision element.
Proof. solve_decision. Defined.



(** Every node of the forest satisfies [P]. *)
Fixpoint forest_all (P : element -> bool) (f : forest) : bool :=
  match f with
  | FNil => true
  | FNode e c s => P e && forest_all P c && forest_all P s
  end.

(** The nodes of the form were created before the next node will be:
    [createElement] never returns a node that is already in the form. *)
Definition fresh_ids (w : world) : bool :=
  forest_all (fun e => Nat.ltb (eid e) (next_id w)) (form w).

(** A store whose registered email holds an asterisk inside. *)
Definition masked_storage : gmap jsstring jsstring :=
  {[ REGISTERED_EMAIL_KEY :=
       lit "al" ++ code_ASTERISK :: lit "ice@example.com" ]}.

(** The listener ended with the session flag written. *)
Definition flag_written (o : option AuthOutcome) (full : bool) : bool :=
  match o with
  | Some Accepted => negb full
  | _ => false
  end.

(** * Properties *)

(** ** The matcher decides the language *)

Lemma Matches_seq_inv r1 r2 s :
  Matches (RSeq r1 r2) s ->
  exists s1 s2, s = s1 ++ s2 /\ Matches r1 s1 /\ Matches r2 s2.
Proof. inversion 1; subst; eauto. Qed.

Lemma Matches_alt_inv r1 r2 s :
  Matches (RAlt r1 r2) s -> Matches r1 s \/ Matches r2 s.
Proof. inversion 1; subst; eauto. Qed.

Lemma Matches_class_inv p s :
  Matches (RClass p) s -> exists c, s = [c] /\ p c = true.
Proof. inversion 1; subst; eauto. Qed.

Lemma Matches_eps_inv s : Matches REps s -> s = [].
Proof. inversion 1; reflexivity. Qed.

Lemma Matches_none_inv s : ~ Matches RNone s.
Proof. inversion 1. Qed.

(** A non-empty word of a starred expression starts with a non-empty
    word of the expression. *)
Lemma Matches_star_cons_inv r c s :
  Matches (RStar r) (c :: s) ->
  exists s1 s2, s = s1 ++ s2 /\ Matches r (c :: s1) /\ Matches (RStar r) s2.
Proof.
  intros H.
  enough (G : forall r' w, Matches r' w -> r' = RStar r -> w = c :: s ->
            exists s1 s2,
              s = s1 ++ s2 /\ Matches r (c :: s1) /\ Matches (RStar r) s2)
    by (apply (G _ _ H); reflexivity).
  clear H. intros r' w H.
  induction H as [| | | | | |r0 u1 u2 H1 _ H2 IH2]; intros Er Ew;
    try discriminate.
  injection Er as ->.
  destruct u1 as [|c1 u1]; simpl in Ew.
  - apply IH2; auto.
  - injection Ew as -> <-. eauto.
Qed.

Lemma nullable_Matches r : nullable r = true <-> Matches r [].
Proof.
  induction r as [| |p|r1 IH1 r2 IH2|r1 IH1 r2 IH2|r IH]; simpl.
  - split; [discriminate | intros H; inversion H].
  - split; [constructor | reflexivity].
  - split; [discriminate | intros H; inversion H].
  - rewrite andb_true_iff, IH1, IH2. split.
    + intros [H1 H2]. apply (MSeq _ _ [] [] H1 H2).
    + intros H. apply Matches_seq_inv in H as (s1 & s2 & E & H1 & H2).
      symmetry in E. apply app_eq_nil in E as [-> ->]. auto.
  - rewrite orb_true_iff, IH1, IH2. split.
    + intros [H|H]; [apply MAltL | apply MAltR]; assumption.
    + apply Matches_alt_inv.
  - split; [constructor | reflexivity].
Qed.

Lemma deriv_Matches c r : forall s, Matches (deriv c r) s <-> Matches r (c :: s).
Proof.
  induction r as [| |p|r1 IH1 r2 IH2|r1 IH1 r2 IH2|r IH]; intros s; simpl.
  - split; intros H; inversion H.
  - split; intros H; inversion H.
  - destruct (p c) eqn:Ep; split; intros H.
    + apply Matches_eps_inv in H as ->. constructor; assumption.
    + apply Matches_class_inv in H as (c' & E & _).
      injection E as -> ->. constructor.
    + inversion H.
    + apply Matches_class_inv in H as (c' & E & Hp).
      injection E as -> ->. congruence.
  - assert (Hl : Matches (RSeq (deriv c r1) r2) s ->
                 Matches (RSeq r1 r2) (c :: s)).
    { intros H. apply Matches_seq_inv in H as (s1 & s2 & -> & H1 & H2).
      apply IH1 in H1. apply (MSeq _ _ (c :: s1) s2 H1 H2). }
    assert (Hr : Matches (RSeq r1 r2) (c :: s) ->
                 Matches (RSeq (deriv c r1) r2) s
                 \/ (Matches r1 [] /\ Matches (deriv c r2) s)).
    { intros H. apply Matches_seq_inv in H as (s1 & s2 & E & H1 & H2).
      destruct s1 as [|c1 s1]; simpl in E.
      - subst s2. right. split; [assumption | apply IH2; assumption].
      - injection E as <- ->. left. apply MSeq; [apply IH1|]; assumption. }
    destruct (nullable r1) eqn:En.
    + split.
      * intros H. apply Matches_alt_inv in H as [H|H]; [auto|].
        apply IH2 in H. apply nullable_Matches in En.
        apply (MSeq _ _ [] (c :: s) En H).
      * intros H. apply Hr in H as [H|[_ H]];
          [apply MAltL | apply MAltR]; assumption.
    + split; [exact Hl|].
      intros H. apply Hr in H as [H|[H _]]; [assumption|].
      apply nullable_Matches in H. congruence.
  - split.
    + intros H. apply Matches_alt_inv in H as [H|H];
        [apply MAltL, IH1 | apply MAltR, IH2]; assumption.
    + intros H. apply Matches_alt_inv in H as [H|H];
        [apply MAltL, IH1 | apply MAltR, IH2]; assumption.
  - split.
    + intros H. apply Matches_seq_inv in H as (s1 & s2 & -> & H1 & H2).
      apply IH in H1. apply (MStarCons _ (c :: s1) s2 H1 H2).
    + intros H. apply Matches_star_cons_inv in H as (s1 & s2 & -> & H1 & H2).
      apply MSeq; [apply IH|]; assumption.
Qed.

Lemma regex_test_Matches s : forall r, regex_test r s = true <-> Matches r s.
Proof.
  induction s as [|c s IH]; intros r; simpl.
  - apply nullable_Matches.
  - rewrite IH. apply deriv_Matches.
Qed.

(** Words of [[cls]+]. *)
Lemma Matches_star_class p s :
  Matches (RStar (RClass p)) s <-> List.Forall (fun c => p c = true) s.
Proof.
  split.
  - induction s as [|c s IH]; intros H; [constructor|].
    apply Matches_star_cons_inv in H as (s1 & s2 & -> & H1 & H2).
    apply Matches_class_inv in H1 as (c' & E & Hp).
    injection E as <- ->. constructor; [assumption | apply IH, H2].
  - induction 1 as [|c s Hc _ IH]; [constructor|].
    apply (MStarCons _ [c] s); [constructor|]; assumption.
Qed.

Lemma Matches_plus_class p s :
  Matches (RPlus (RClass p)) s <->
  s <> [] /\ List.Forall (fun c => p c = true) s.
Proof.
  unfold RPlus. split.
  - intros H. apply Matches_seq_inv in H as (s1 & s2 & -> & H1 & H2).
    apply Matches_class_inv in H1 as (c & -> & Hp).
    apply Matches_star_class in H2. split; [discriminate|].
    constructor; assumption.
  - intros [Hne H]. destruct s as [|c s]; [congruence|].
    inversion H; subst.
    apply (MSeq _ _ [c] s); [constructor | apply Matches_star_class];
      assumption.
Qed.

Lemma Matches_char c s : Matches (RChar c) s <-> s = [c].
Proof.
  unfold RChar. split.
  - intros H. apply Matches_class_inv in H as (c' & -> & Hp).
    apply N.eqb_eq in Hp. congruence.
  - intros ->. constructor. apply N.eqb_refl.
Qed.

Lemma Matches_lit l s : Matches (RLit l) s <-> s = l.
Proof.
  revert s. induction l as [|c l IH]; intros s; simpl.
  - split; [apply Matches_eps_inv | intros ->; constructor].
  - split.
    + intros H. apply Matches_seq_inv in H as (s1 & s2 & -> & H1 & H2).
      apply Matches_char in H1 as ->. apply IH in H2 as ->. reflexivity.
    + intros ->. apply (MSeq _ _ [c] l); [apply Matches_char | apply IH];
        reflexivity.
Qed.

(** ** [trim] *)

Lemma trimStart_suffix s : exists l, s = l ++ trimStart s.
Proof.
  induction s as [|c s [l IH]]; simpl.
  - exists []. reflexivity.
  - destruct (isWhiteSpace c).
    + exists (c :: l). simpl. congruence.
    + exists []. reflexivity.
Qed.

Lemma trimEnd_prefix s : exists r, s = trimEnd s ++ r.
Proof.
  unfold trimEnd. destruct (trimStart_suffix (rev s)) as [l E].
  exists (rev l). rewrite <- rev_app_distr, <- E, rev_involutive. reflexivity.
Qed.

(** The trimmed string is a factor of the string. *)
Lemma trim_factor s : exists l r, s = l ++ trim s ++ r.
Proof.
  unfold trim. destruct (trimStart_suffix s) as [l El].
  destruct (trimEnd_prefix (trimStart s)) as [r Er].
  exists l, r. rewrite <- Er. exact El.
Qed.

Lemma trim_nil : trim [] = [].
Proof. reflexivity. Qed.

(** ** [isValidEmail] *)

Lemma notSpaceAt_plain c : notSpaceAt c = true <-> plain_unit c.
Proof.
  unfold notSpaceAt, plain_unit.
  rewrite negb_true_iff, orb_false_iff, N.eqb_neq. reflexivity.
Qed.

Lemma Forall_notSpaceAt s :
  Forall (fun c => notSpaceAt c = true) s <-> Forall plain_unit s.
Proof. apply Forall_iff. intros c. apply notSpaceAt_plain. Qed.

Lemma emailRegex_shaped s : regex_test emailRegex s = true <-> email_shaped s.
Proof.
  rewrite regex_test_Matches. unfold emailRegex, email_shaped. split.
  - intros H.
    apply Matches_seq_inv in H as (a & s1 & -> & Ha & H).
    apply Matches_seq_inv in H as (x & s2 & -> & Hx & H).
    apply Matches_seq_inv in H as (b & s3 & -> & Hb & H).
    apply Matches_seq_inv in H as (y & c & -> & Hy & Hc).
    apply Matches_char in Hx as ->. apply Matches_char in Hy as ->.
    apply Matches_plus_class in Ha as [Ha1 Ha2].
    apply Matches_plus_class in Hb as [Hb1 Hb2].
    apply Matches_plus_class in Hc as [Hc1 Hc2].
    exists a, b, c. rewrite <- !Forall_notSpaceAt. auto 10.
  - intros (a & b & c & -> & Ha & Hb & Hc & Fa & Fb & Fc).
    rewrite <- Forall_notSpaceAt in Fa, Fb, Fc.
    repeat (apply MSeq);
      try (apply Matches_char; reflexivity);
      apply Matches_plus_class; auto.
Qed.

Lemma isValidEmail_string s :
  isValidEmail (VString s) = true <-> s <> [] /\ email_shaped (trim s).
Proof.
  unfold isValidEmail, truthy, is_string, jsstring_eqb. simpl.
  rewrite orb_false_r, negb_involutive.
  case_bool_decide as E.
  - subst s. split; [discriminate | intros [H _]; congruence].
  - rewrite emailRegex_shaped. tauto.
Qed.

Lemma email_shaped_at_dot s :
  email_shaped s -> exists p q, s = p ++ code_AT :: q /\ code_DOT ∈ q.
Proof.
  intros (a & b & c & -> & _). exists a, (b ++ [code_DOT] ++ c).
  split; [reflexivity|]. set_solver.
Qed.

(** C3: [isValidEmail] is a function of its argument alone; it is false on
    every value that is not a string and on the empty string; on any other
    string it is true exactly when the trimmed string consists of one or
    more units that are neither whitespace nor an at sign, an at sign, one
    or more such units, a dot, and one or more such units.  Hence it is
    false on every string without an at sign and on every string in which
    no dot follows an at sign. *)
Theorem isValidEmail_spec :
  (forall v, is_string v = false -> isValidEmail v = false)
  /\ isValidEmail (VString []) = false
  /\ (forall s, s <> [] ->
        (isValidEmail (VString s) = true <-> email_shaped (trim s)))
  /\ (forall s, code_AT ∉ s -> isValidEmail (VString s) = false)
  /\ (forall s, (forall p q, s = p ++ code_AT :: q -> code_DOT ∉ q) ->
        isValidEmail (VString s) = false).
Proof.
  assert (Hdot : forall s,
            (forall p q, s = p ++ code_AT :: q -> code_DOT ∉ q) ->
            isValidEmail (VString s) = false).
  { intros s Hs. apply not_true_is_false. intros H.
    apply isValidEmail_string in H as [_ H].
    apply email_shaped_at_dot in H as (p & q & E & Hq).
    destruct (trim_factor s) as (l & r & Es). rewrite E in Es.
    apply (Hs (l ++ p) (q ++ r)).
    - rewrite Es. rewrite <- !app_assoc. reflexivity.
    - set_solver. }
  split; [|split; [|split; [|split]]].
  - intros v Hv. unfold isValidEmail. rewrite Hv, orb_true_r. reflexivity.
  - reflexivity.
  - intros s Hs. rewrite isValidEmail_string. tauto.
  - intros s Hs. apply Hdot. intros p q E. contradict Hs.
    rewrite E. set_solver.
  - exact Hdot.
Qed.

Lemma isValidEmail_spec_witness :
  isValidEmail (VString (lit "alice.example.com")) = false
  /\ (isValidEmail (VString (lit " alice@example.com ")) = true <->
      email_shaped (trim (lit " alice@example.com "))).
Proof.
  destruct isValidEmail_spec as (_ & _ & Hshape & Hat & _).
  split.
  - apply Hat. apply (bool_decide_unpack _). vm_compute. exact I.
  - apply Hshape. vm_compute. discriminate.
Defined.

(** A few evaluations of the validator. *)
Example isValidEmail_alice :
  isValidEmail (VString (lit "alice@example.com")) = true.
Proof. vm_compute. reflexivity. Qed.

Example isValidEmail_no_dot_after_at :
  isValidEmail (VString (lit "alice.b@example")) = false.
Proof. vm_compute. reflexivity. Qed.

Example isValidEmail_inner_space :
  isValidEmail (VString (lit "al ice@example.com")) = false.
Proof. vm_compute. reflexivity. Qed.

Example isValidEmail_number : isValidEmail (VNumber 42) = false.
Proof. reflexivity. Qed.

(** ** String replacement *)

Lemma startsWith_spec pat : forall s,
  startsWith pat s = true <-> exists r, s = pat ++ r.
Proof.
  induction pat as [|a pat IH]; intros s; simpl.
  - split; [eauto | reflexivity].
  - destruct s as [|b s].
    + split; [discriminate | intros [r E]; discriminate].
    + rewrite andb_true_iff, N.eqb_eq, IH. split.
      * intros [-> [r ->]]. eauto.
      * intros [r E]. injection E as -> ->. eauto.
Qed.

Lemma replace_string_unfold pat rep s :
  replace_string pat rep s =
  if startsWith pat s then rep ++ drop (length pat) s
  else match s with
       | [] => []
       | c :: t => c :: replace_string pat rep t
       end.
Proof. destruct s; reflexivity. Qed.

Lemma replace_regex_end_unfold r rep s :
  replace_regex_end r rep s =
  if regex_test r s then rep
  else match s with
       | [] => []
       | c :: t => c :: replace_regex_end r rep t
       end.
Proof. destruct s; reflexivity. Qed.

(** Without an occurrence the string is returned as it is. *)
Lemma replace_string_absent pat rep s :
  (forall t, t `suffix_of` s -> startsWith pat t = false) ->
  replace_string pat rep s = s.
Proof.
  induction s as [|c s IH]; intros H; rewrite replace_string_unfold.
  - rewrite (H []); [reflexivity | apply suffix_nil].
  - rewrite (H (c :: s)); [|reflexivity].
    f_equal. apply IH. intros t Ht. apply H. apply suffix_cons_r, Ht.
Qed.

(** The leftmost occurrence is the one replaced. *)
Lemma replace_string_leftmost pat rep q : forall p,
  (forall t, t `suffix_of` p -> t <> [] ->
             startsWith pat (t ++ pat ++ q) = false) ->
  replace_string pat rep (p ++ pat ++ q) = p ++ rep ++ q.
Proof.
  induction p as [|c p IH]; intros H; rewrite replace_string_unfold.
  - simpl. assert (E : startsWith pat (pat ++ q) = true)
      by (apply startsWith_spec; eauto).
    rewrite E, drop_app_length. reflexivity.
  - rewrite (H (c :: p)); [|reflexivity|discriminate].
    rewrite <- !app_comm_cons.
    f_equal. apply IH. intros t Ht. apply H. apply suffix_cons_r, Ht.
Qed.

Lemma replace_regex_end_absent r rep s :
  (forall t, t `suffix_of` s -> regex_test r t = false) ->
  replace_regex_end r rep s = s.
Proof.
  induction s as [|c s IH]; intros H; rewrite replace_regex_end_unfold.
  - rewrite (H []); [reflexivity | apply suffix_nil].
  - rewrite (H (c :: s)); [|reflexivity].
    f_equal. apply IH. intros t Ht. apply H. apply suffix_cons_r, Ht.
Qed.

Lemma replace_regex_end_leftmost r rep m : forall p,
  regex_test r m = true ->
  (forall t, t `suffix_of` p -> t <> [] -> regex_test r (t ++ m) = false) ->
  replace_regex_end r rep (p ++ m) = p ++ rep.
Proof.
  induction p as [|c p IH]; intros Hm H; rewrite replace_regex_end_unfold.
  - simpl. rewrite Hm. reflexivity.
  - rewrite (H (c :: p)); [|reflexivity|discriminate].
    rewrite <- !app_comm_cons.
    f_equal. apply IH; [assumption|].
    intros t Ht. apply H. apply suffix_cons_r, Ht.
Qed.

(** ** [addCreateAccountLink]: the registration path *)

Lemma signInRegex_words s :
  regex_test signInRegex s = true <->
  s = lit "/sign-in" \/ s = lit "/sign-in.html".
Proof.
  rewrite regex_test_Matches. unfold signInRegex, ROpt. split.
  - intros H. apply Matches_seq_inv in H as (s1 & s2 & -> & H1 & H2).
    apply Matches_lit in H1 as ->.
    apply Matches_alt_inv in H2 as [H2|H2].
    + apply Matches_lit in H2 as ->. right. reflexivity.
    + apply Matches_eps_inv in H2 as ->. left. reflexivity.
  - intros [->| ->].
    + apply (MSeq _ _ (lit "/sign-in") []);
        [apply Matches_lit; reflexivity | apply MAltR; constructor].
    + apply (MSeq _ _ (lit "/sign-in") (lit ".html"));
        [|apply MAltL]; apply Matches_lit; reflexivity.
Qed.

Lemma app_lit_length_eq (t m : jsstring) :
  t ++ m = m -> t = [].
Proof.
  intros E. apply (f_equal length) in E. rewrite length_app in E.
  destruct t; [reflexivity | simpl in E; lia].
Qed.

(** Nothing longer than a trailing sign-in segment matches the pattern. *)
Lemma signInRegex_no_longer_match t m :
  m = lit "/sign-in" \/ m = lit "/sign-in.html" ->
  t <> [] -> regex_test signInRegex (t ++ m) = false.
Proof.
  intros Hm Ht. apply not_true_is_false. intros H.
  apply signInRegex_words in H.
  destruct Hm as [->| ->], H as [H|H].
  - apply app_lit_length_eq in H. contradiction.
  - apply (f_equal (@rev N)) in H. rewrite rev_app_distr in H.
    vm_compute in H. discriminate H.
  - apply (f_equal length) in H. rewrite length_app in H.
    change (length (lit "/sign-in.html")) with 13%nat in H.
    change (length (lit "/sign-in")) with 8%nat in H. lia.
  - apply app_lit_length_eq in H. contradiction.
Qed.

Lemma includes_unfold pat s :
  includes pat s =
  startsWith pat s || match s with [] => false | _ :: t => includes pat t end.
Proof. destruct s; reflexivity. Qed.

Lemma includes_occurs pat s : includes pat s = true <-> occurs pat s.
Proof.
  unfold occurs. induction s as [|c s IH]; rewrite includes_unfold.
  - rewrite orb_false_r, startsWith_spec. split.
    + intros [r E]. exists [], r. exact E.
    + intros (a & b & E). destruct a; [eauto|discriminate].
  - rewrite orb_true_iff, startsWith_spec, IH. split.
    + intros [[r E]|(a & b & E)].
      * exists [], r. exact E.
      * exists (c :: a), b. simpl. congruence.
    + intros (a & b & E). destruct a as [|c' a].
      * left. eauto.
      * right. injection E as _ E. eauto.
Qed.

Lemma includes_false_suffix pat s t :
  includes pat s = false -> t `suffix_of` s -> startsWith pat t = false.
Proof.
  intros H [k ->]. apply not_true_is_false. intros Ht.
  apply startsWith_spec in Ht as [r ->].
  apply not_true_iff_false in H. apply H, includes_occurs.
  exists k, r. reflexivity.
Qed.

(** The pattern of the authoring branch cannot straddle the start of one
    of its own occurrences: its only slash is its first unit. *)
Lemma sign_in_html_no_overlap p q t :
  includes (lit "/sign-in.html") p = false ->
  t `suffix_of` p -> t <> [] ->
  startsWith (lit "/sign-in.html") (t ++ lit "/sign-in.html" ++ q) = false.
Proof.
  intros Hp Ht Hne. apply not_true_is_false. intros H.
  apply startsWith_spec in H as [r E].
  destruct (le_lt_dec 13 (length t)) as [Hl|Hl].
  - assert (Et : take 13 t = lit "/sign-in.html").
    { apply (f_equal (take 13)) in E.
      rewrite take_app_le in E by exact Hl.
      rewrite E. reflexivity. }
    assert (Hs : startsWith (lit "/sign-in.html") t = true).
    { apply startsWith_spec. exists (drop 13 t).
      rewrite <- Et. symmetry. apply take_drop. }
    rewrite (includes_false_suffix _ _ _ Hp Ht) in Hs. discriminate.
  - assert (Hj : lit "/sign-in.html" !! length t = Some 47).
    { apply (f_equal (fun l : jsstring => l !! length t)) in E.
      rewrite lookup_app_r, Nat.sub_diag in E by reflexivity.
      rewrite (lookup_app_l _ r) in E by exact Hl.
      rewrite <- E. reflexivity. }
    destruct t as [|c t]; [contradiction|]. simpl length in *.
    revert Hl Hj. generalize (length t). intros j Hl Hj.
    do 12 (destruct j as [|j]; [vm_compute in Hj; discriminate Hj|]).
    lia.
Qed.

(** C6, as the source has it: on an authoring page the leftmost
    occurrence of the sign-in page name, wherever it lies in the path, is
    replaced by the registration page name and the rest of the path is
    kept; a path without it is unchanged.  On a published page a trailing
    sign-in segment, with or without the html extension, is replaced by
    the registration segment, and a path that does not end in one is
    unchanged.  The two paths of the specification come out as stated. *)
Theorem registrationPath_spec :
  (forall p q, includes (lit "/sign-in.html") p = false ->
     registrationPath (p ++ lit "/sign-in.html" ++ q) true
     = p ++ lit "/registration.html" ++ q)
  /\ (forall s, includes (lit "/sign-in.html") s = false ->
       registrationPath s true = s)
  /\ (forall p, registrationPath (p ++ lit "/sign-in") false
                = p ++ lit "/registration")
  /\ (forall p, registrationPath (p ++ lit "/sign-in.html") false
                = p ++ lit "/registration")
  /\ (forall s, ~ lit "/sign-in" `suffix_of` s ->
                ~ lit "/sign-in.html" `suffix_of` s ->
                registrationPath s false = s)
  /\ registrationPath (lit "/en/sign-in") false = lit "/en/registration"
  /\ registrationPath (lit "/en/sign-in.html") true
     = lit "/en/registration.html".
Proof.
  unfold registrationPath. repeat split.
  - intros p q Hp. apply replace_string_leftmost.
    intros t Ht Hne. exact (sign_in_html_no_overlap p q t Hp Ht Hne).
  - intros s Hs. apply replace_string_absent.
    intros t Ht. exact (includes_false_suffix _ _ _ Hs Ht).
  - intros p. apply replace_regex_end_leftmost; [reflexivity|].
    intros t _ Hne. apply signInRegex_no_longer_match; auto.
  - intros p. apply replace_regex_end_leftmost; [reflexivity|].
    intros t _ Hne. apply signInRegex_no_longer_match; auto.
  - intros s H1 H2. apply replace_regex_end_absent.
    intros t Ht. apply not_true_is_false. intros H.
    apply signInRegex_words in H as [->| ->]; contradiction.
Qed.

Lemma registrationPath_spec_witness :
  registrationPath (lit "/content/luma/en" ++ lit "/sign-in.html" ++ lit "/jcr")
    true
  = lit "/content/luma/en" ++ lit "/registration.html" ++ lit "/jcr"
  /\ registrationPath (lit "/content/luma/en.html") true
     = lit "/content/luma/en.html"
  /\ registrationPath (lit "/en/sign-in/help") false = lit "/en/sign-in/help".
Proof.
  destruct registrationPath_spec as (H1 & H2 & _ & _ & H5 & _).
  split; [apply H1; reflexivity|].
  split; [apply H2; reflexivity|].
  apply H5; intros [k E]; apply (f_equal (@rev N)) in E;
    rewrite rev_app_distr in E; vm_compute in E; discriminate E.
Defined.

(** C6 as stated fails on an authoring page whose path holds the page
    name twice: the first occurrence is replaced, not the trailing one. *)
Lemma registrationPath_author_not_trailing :
  registrationPath (lit "/sign-in.html" ++ lit "/sign-in.html") true
  = lit "/registration.html" ++ lit "/sign-in.html"
  /\ registrationPath (lit "/sign-in.html" ++ lit "/sign-in.html") true
     <> lit "/sign-in.html" ++ lit "/registration.html".
Proof. split; [reflexivity | vm_compute; discriminate]. Qed.

(** C10: in both environments a path in which the sign-in segment does
    not occur is returned unchanged. *)
Theorem registrationPath_identity (path : jsstring) (isAuthor : bool) :
  includes (lit "/sign-in") path = false ->
  registrationPath path isAuthor = path.
Proof.
  intros H. unfold registrationPath. destruct isAuthor.
  - apply replace_string_absent. intros t Ht.
    apply not_true_is_false. intros Hs.
    apply startsWith_spec in Hs as [r ->].
    assert (Hp : startsWith (lit "/sign-in") (lit "/sign-in.html" ++ r) = true)
      by reflexivity.
    rewrite (includes_false_suffix _ _ _ H Ht) in Hp. discriminate.
  - apply replace_regex_end_absent. intros t Ht.
    apply not_true_is_false. intros Hs.
    apply signInRegex_words in Hs.
    assert (Hp : startsWith (lit "/sign-in") t = true)
      by (destruct Hs as [->| ->]; reflexivity).
    rewrite (includes_false_suffix _ _ _ H Ht) in Hp. discriminate.
Qed.

Lemma registrationPath_identity_witness :
  registrationPath (lit "/en/products/gear") true = lit "/en/products/gear"
  /\ registrationPath (lit "/en/products/gear") false = lit "/en/products/gear".
Proof.
  split; apply registrationPath_identity; reflexivity.
Defined.

(** ** The DOM operations *)

Lemma insertBefore_querySelector sel n f :
  insertBefore sel n f = None <-> querySelector sel f = None.
Proof.
  induction f as [|e c IHc s IHs]; simpl; [tauto|].
  destruct (sel e); [split; discriminate|].
  destruct (insertBefore sel n c), (querySelector sel c);
    try (split; discriminate).
  - destruct IHc as [_ IHc]. specialize (IHc eq_refl). discriminate.
  - destruct IHc as [IHc _]. specialize (IHc eq_refl). discriminate.
  - destruct (insertBefore sel n s), (querySelector sel s);
      intuition congruence.
Qed.

Lemma querySelector_appendChild sel n f :
  sel n = false -> querySelector sel f = None ->
  querySelector sel (appendChild n f) = None.
Proof.
  intros Hn. induction f as [|e c _ s IHs]; simpl.
  - rewrite Hn. reflexivity.
  - destruct (sel e); [discriminate|].
    destruct (querySelector sel c); [discriminate | exact IHs].
Qed.

Lemma update_first_querySelector sel g f :
  update_first sel g f = None <-> querySelector sel f = None.
Proof.
  induction f as [|e c IHc s IHs]; simpl; [tauto|].
  destruct (sel e); [split; discriminate|].
  destruct (update_first sel g c), (querySelector sel c);
    try (split; discriminate).
  - destruct IHc as [_ IHc]. specialize (IHc eq_refl). discriminate.
  - destruct IHc as [IHc _]. specialize (IHc eq_refl). discriminate.
  - destruct (update_first sel g s), (querySelector sel s);
      intuition congruence.
Qed.

(** ** Running the two message functions *)

(** Unfolds the monad and the primitive operations, and reads fields of
    updated worlds; the pure functions of the source stay folded. *)
Ltac read_fields :=
  cbn [storage storage_full clock form next_id focused timers href trace
       with_storage with_form with_next_id with_focused with_timers
       with_href with_trace fst snd eid].

Ltac run_monad :=
  cbv beta iota delta [mbind M_bind mret M_ret modify_form createMessage
    formQuerySelector setTimeout modify gets emit focus getItem setItem
    dispatchEvent throw try_catch];
  read_fields.

Lemma showErrorMessage_run message w :
  showErrorMessage message w = (Normal tt, after_error message w).
Proof.
  unfold showErrorMessage, after_error, place_message. run_monad.
  fold (message_element (next_id w) (lit "error") message).
  destruct (querySelector sel_submit_button _) eqn:Eq; read_fields;
    destruct (insertBefore sel_submit_button _ _) eqn:Ei;
    try reflexivity.
  - apply insertBefore_querySelector in Ei. congruence.
  - apply (insertBefore_querySelector sel_submit_button
             (message_element (next_id w) (lit "error") message)) in Eq.
    congruence.
Qed.

Lemma showSuccessMessage_run message w :
  showSuccessMessage message w = (Normal tt, after_success message w).
Proof.
  unfold showSuccessMessage, after_success, place_message, disable_submit.
  run_monad.
  fold (message_element (next_id w) (lit "success") message).
  destruct (querySelector sel_submit_button _) eqn:Eq; read_fields;
    destruct (insertBefore sel_submit_button _ _) eqn:Ei;
    try reflexivity.
  - apply insertBefore_querySelector in Ei. congruence.
  - apply (insertBefore_querySelector sel_submit_button
             (message_element (next_id w) (lit "success") message)) in Eq.
    congruence.
  - (* no submit button: nothing to disable after appending *)
    assert (H : update_first sel_submit_button (set_disabled true)
                  (appendChild (message_element (next_id w) (lit "success")
                                  message)
                     (remove_all sel_form_message (form w))) = None).
    { apply update_first_querySelector.
      apply querySelector_appendChild; [reflexivity | exact Eq]. }
    rewrite H. reflexivity.
Qed.

(** ** Running the listener *)

Ltac run_listener :=
  repeat (run_monad;
          rewrite ?showErrorMessage_run, ?showSuccessMessage_run).

(** The listener returns normally, on every path, with the branch and
    the world of its closed form. *)
Lemma submitListener_run `{Builtins} w :
  submitListener w = (Normal (fst (listener_model w)), snd (listener_model w)).
Proof.
  unfold submitListener, listener_model, emailInput, passwordInput,
    cleaned, append_trace, login_event_of.
  run_listener.
  destruct (querySelector sel_input_email (form w)) as [ei|];
    destruct (querySelector sel_input_password (form w)) as [pi|];
    run_listener; try reflexivity.
  destruct (isValidEmail (VString (trim (evalue ei)))); cbn [negb];
    run_listener; [|reflexivity].
  destruct (negb (truthy (VString (evalue pi)))
            || jsstring_eqb (trim (evalue pi)) []);
    run_listener; [reflexivity|].
  destruct (storage w !! REGISTERED_EMAIL_KEY) as [v|];
    cbn [of_nullable truthy fmap option_fmap option_map negb orb];
    run_listener; [|reflexivity].
  destruct (jsstring_eqb v []) eqn:Ev;
    cbn [negb fmap option_fmap option_map of_nullable truthy orb];
    rewrite ?Ev; cbn [negb orb]; run_listener; [reflexivity|].
  set (reg := trim (replace_class_all asteriskOrQuote [] v)).
  destruct (jsstring_eqb reg []); cbn [negb orb]; run_listener;
    [reflexivity|].
  destruct (isValidEmail (VString reg)); cbn [negb orb]; run_listener;
    [|reflexivity].
  destruct (jsstring_eqb (toLowerCase _) (toLowerCase reg)); cbn [negb];
    run_listener; [|reflexivity].
  destruct (storage_full w); run_listener; reflexivity.
Qed.

(** ** Blank passwords *)

Lemma trimStart_nil s : trimStart s = [] <-> blank s = true.
Proof.
  unfold blank. induction s as [|c s IH]; simpl; [tauto|].
  destruct (isWhiteSpace c); simpl; [exact IH|].
  split; discriminate.
Qed.

Lemma trimStart_head s c t : trimStart s = c :: t -> isWhiteSpace c = false.
Proof.
  induction s as [|a s IH]; simpl; [discriminate|].
  destruct (isWhiteSpace a) eqn:Ea; [exact IH|].
  intros E. injection E as <- _. exact Ea.
Qed.

Lemma blank_rev s : blank (rev s) = blank s.
Proof.
  unfold blank. induction s as [|c s IH]; simpl; [reflexivity|].
  rewrite forallb_app, IH. simpl. rewrite andb_true_r. apply andb_comm.
Qed.

Lemma trim_nil_blank s : trim s = [] <-> blank s = true.
Proof.
  unfold trim, trimEnd. split.
  - intros H. apply (f_equal (@rev N)) in H.
    rewrite rev_involutive in H. simpl in H.
    apply trimStart_nil in H. rewrite blank_rev in H.
    destruct (trimStart s) as [|c t] eqn:E.
    + apply trimStart_nil, E.
    + apply trimStart_head in E. simpl in H. rewrite E in H. discriminate.
  - intros H. apply trimStart_nil in H. rewrite H. reflexivity.
Qed.

(** A trimmed string neither starts nor ends with whitespace. *)
Lemma trim_first s c t : trim s = c :: t -> isWhiteSpace c = false.
Proof.
  unfold trim. intros E.
  destruct (trimEnd_prefix (trimStart s)) as [r Er].
  rewrite E in Er. apply (trimStart_head s c ((t ++ r))). exact Er.
Qed.

Lemma trim_last s t c : trim s = t ++ [c] -> isWhiteSpace c = false.
Proof.
  unfold trim, trimEnd. intros E.
  apply (f_equal (@rev N)) in E.
  rewrite rev_involutive, rev_app_distr in E. simpl in E.
  exact (trimStart_head _ _ _ E).
Qed.

(** The listener's password test is the blank test. *)
Lemma password_test_blank p :
  negb (truthy (VString p)) || jsstring_eqb (trim p) [] = blank p.
Proof.
  unfold truthy, jsstring_eqb. rewrite negb_involutive.
  destruct (blank p) eqn:E.
  - apply trim_nil_blank in E. rewrite E.
    rewrite (bool_decide_eq_true_2 _ eq_refl). apply orb_true_r.
  - apply orb_false_iff. split; apply bool_decide_eq_false_2; intros H.
    + subst p. discriminate.
    + apply trim_nil_blank in H. congruence.
Qed.

(** ** The credential store reader *)

Lemma replace_class_all_delete cls s :
  replace_class_all cls [] s = List.filter (fun c => negb (cls c)) s.
Proof.
  unfold replace_class_all. induction s as [|c s IH]; simpl; [reflexivity|].
  rewrite IH. destruct (cls c); reflexivity.
Qed.

Lemma cleaned_sanitize v :
  trim (replace_class_all asteriskOrQuote [] v) = sanitize_spec v.
Proof. rewrite replace_class_all_delete. reflexivity. Qed.

Lemma sanitize_nil : sanitize_spec [] = [].
Proof. reflexivity. Qed.

(** What the listener does with the stored value is what the reader of
    the specification returns. *)
Lemma cleaned_read_credential st :
  match cleaned (st !! REGISTERED_EMAIL_KEY) with
  | None => None
  | Some r =>
      if negb (truthy (VString r)) || negb (isValidEmail (VString r))
      then None else Some r
  end = read_credential_spec st.
Proof.
  unfold cleaned, read_credential_spec.
  destruct (st !! REGISTERED_EMAIL_KEY) as [v|]; [|reflexivity].
  cbn [of_nullable truthy]. unfold jsstring_eqb.
  case_bool_decide as Ev; cbn [negb fmap option_fmap option_map].
  - subst v. reflexivity.
  - rewrite cleaned_sanitize. cbn [truthy]. unfold jsstring_eqb.
    rewrite negb_involutive. reflexivity.
Qed.

(** ** The decision *)

(** The branch the listener leaves through is the decision of the
    specification on what was entered and what is stored. *)
Lemma listener_decision `{Builtins} w email password :
  enteredEmail w = Some email -> enteredPassword w = Some password ->
  fst (listener_model w) = Some (auth_decision_spec email password (storage w)).
Proof.
  unfold enteredEmail, enteredPassword, listener_model, auth_decision_spec.
  destruct (emailInput w) as [ei|]; [|discriminate].
  destruct (passwordInput w) as [pi|]; [|discriminate].
  cbn [fmap option_fmap option_map]. intros [= <-] [= <-]. cbv zeta.
  destruct (negb (isValidEmail (VString (trim (evalue ei)))));
    [reflexivity|].
  rewrite password_test_blank.
  destruct (blank (evalue pi)); [reflexivity|].
  rewrite <- cleaned_read_credential.
  destruct (cleaned (storage w !! REGISTERED_EMAIL_KEY)) as [r|];
    [|reflexivity].
  destruct (negb (truthy (VString r)) || negb (isValidEmail (VString r)));
    [reflexivity|].
  destruct (jsstring_eqb (toLowerCase _) (toLowerCase r)); cbn [negb];
    [|reflexivity].
  destruct (storage_full w); reflexivity.
Qed.

(** When a validation fails the listener shows its message and leaves
    storage alone: nothing is added to the trace. *)
Lemma listener_validation_trace `{Builtins} w email password :
  enteredEmail w = Some email -> enteredPassword w = Some password ->
  isValidEmail (VString email) = false \/ blank password = true ->
  trace (snd (listener_model w)) = trace w.
Proof.
  unfold enteredEmail, enteredPassword, listener_model.
  destruct (emailInput w) as [ei|]; [|discriminate].
  destruct (passwordInput w) as [pi|]; [|discriminate].
  cbn [fmap option_fmap option_map]. intros [= <-] [= <-] Hv. cbv zeta.
  destruct (isValidEmail (VString (trim (evalue ei)))); cbn [negb];
    [|reflexivity].
  rewrite password_test_blank.
  destruct Hv as [Hv|Hv]; [discriminate|]. rewrite Hv. reflexivity.
Qed.

(** C1: with both inputs present, the decision is taken in this order:
    an invalid trimmed email gives [RejectedInvalidEmail]; else a blank
    password gives [RejectedEmptyPassword]; in both cases storage is not
    read (the trace is unchanged).  Else an absent credential record gives
    [RejectedNoAccount]; else a record that differs from the email after
    lower-casing gives [RejectedMismatch]; else the outcome is
    [Accepted]. *)
Theorem decision_order `{Builtins} (w : world) (email password : jsstring) :
  enteredEmail w = Some email ->
  enteredPassword w = Some password ->
  exists o,
    fst (submitListener w) = Normal (Some o)
    /\ o = auth_decision_spec email password (storage w)
    /\ (isValidEmail (VString email) = false ->
        o = RejectedInvalidEmail
        /\ trace (snd (submitListener w)) = trace w)
    /\ (isValidEmail (VString email) = true -> blank password = true ->
        o = RejectedEmptyPassword
        /\ trace (snd (submitListener w)) = trace w)
    /\ (isValidEmail (VString email) = true -> blank password = false ->
        read_credential_spec (storage w) = None ->
        o = RejectedNoAccount)
    /\ (forall record,
        isValidEmail (VString email) = true -> blank password = false ->
        read_credential_spec (storage w) = Some record ->
        toLowerCase email <> toLowerCase record ->
        o = RejectedMismatch)
    /\ (forall record,
        isValidEmail (VString email) = true -> blank password = false ->
        read_credential_spec (storage w) = Some record ->
        toLowerCase email = toLowerCase record ->
        o = Accepted).
Proof.
  intros He Hp. exists (auth_decision_spec email password (storage w)).
  rewrite submitListener_run. cbn [fst snd].
  rewrite (listener_decision w email password He Hp).
  split; [reflexivity|]. split; [reflexivity|].
  unfold auth_decision_spec, jsstring_eqb.
  split; [|split; [|split; [|split]]].
  - intros Hv. rewrite Hv. split; [reflexivity|].
    apply (listener_validation_trace w email password); auto.
  - intros Hv Hb. rewrite Hv, Hb. split; [reflexivity|].
    apply (listener_validation_trace w email password); auto.
  - intros Hv Hb Hr. rewrite Hv, Hb, Hr. reflexivity.
  - intros record Hv Hb Hr Hne. rewrite Hv, Hb, Hr.
    rewrite bool_decide_eq_false_2 by exact Hne. reflexivity.
  - intros record Hv Hb Hr Heq. rewrite Hv, Hb, Hr.
    rewrite bool_decide_eq_true_2 by exact Heq. reflexivity.
Qed.

Lemma decision_order_witness :
  exists o,
    fst (@submitListener ascii_builtins
           (demo_world alice_storage false (lit " ALICE@example.com ")
              (lit "hunter2")))
    = Normal (Some o)
    /\ o = Accepted.
Proof.
  destruct (@decision_order ascii_builtins
              (demo_world alice_storage false (lit " ALICE@example.com ")
                 (lit "hunter2"))
              (lit "ALICE@example.com") (lit "hunter2") eq_refl eq_refl)
    as (o & Ho & Hd & _).
  exists o. split; [exact Ho|]. rewrite Hd. vm_compute. reflexivity.
Defined.

(** ** Storage *)

Lemma keys_differ : SESSION_FLAG_KEY <> REGISTERED_EMAIL_KEY.
Proof. vm_compute. discriminate. Qed.

Lemma storage_writes_app t1 t2 :
  storage_writes (t1 ++ t2) = storage_writes t1 ++ storage_writes t2.
Proof. apply flat_map_app. Qed.

(** Between submissions nothing touches storage. *)
Lemma step_storage `{Builtins} a w : a <> Submit -> storage (step a w) = storage w.
Proof.
  intros Ha. destruct a as [i v| |n]; [reflexivity | contradiction |].
  unfold step. destruct (timers w !! n) as [[cb d]|]; [|reflexivity].
  destruct cb; reflexivity.
Qed.

Ltac listener_branches w :=
  unfold listener_model;
  destruct (emailInput w) as [?ei|]; [destruct (passwordInput w) as [?pi|]|];
  cbv zeta;
  repeat match goal with
    | |- context [if ?c then _ else _] => destruct c eqn:?
    | |- context [match cleaned ?x with _ => _ end] =>
        destruct (cleaned x) as [?reg|] eqn:?
    end;
  cbn [fst snd].

Ltac listener_cases w :=
  listener_branches w;
  unfold after_error, after_success, append_trace; read_fields.

(** C2: a submission performs one storage write, of the session flag with
    value true, when its outcome is [Accepted], and none otherwise; the
    store afterwards is the store before, or the store before with the
    flag set; the credential record is as before; a rejected submission
    leaves the store as it was; nothing else on the page (typing, timers)
    touches the store. *)
Theorem storage_mutation `{Builtins} (w : world) :
  exists new,
    trace (snd (submitListener w)) = trace w ++ new
    /\ (fst (submitListener w) = Normal (Some Accepted) ->
        storage_writes new = [(SESSION_FLAG_KEY, lit "true")])
    /\ (fst (submitListener w) <> Normal (Some Accepted) ->
        storage_writes new = []
        /\ storage (snd (submitListener w)) = storage w)
    /\ (storage (snd (submitListener w)) = storage w
        \/ storage (snd (submitListener w))
           = <[SESSION_FLAG_KEY := lit "true"]> (storage w))
    /\ (fst (submitListener w) = Normal (Some Accepted) ->
        storage_full w = false ->
        storage (snd (submitListener w))
        = <[SESSION_FLAG_KEY := lit "true"]> (storage w))
    /\ storage (snd (submitListener w)) !! REGISTERED_EMAIL_KEY
       = storage w !! REGISTERED_EMAIL_KEY
    /\ (forall a, a <> Submit -> storage (step a w) = storage w).
Proof.
  rewrite submitListener_run. cbn [fst snd].
  assert (Hflag : <[SESSION_FLAG_KEY := lit "true"]> (storage w)
                    !! REGISTERED_EMAIL_KEY
                  = storage w !! REGISTERED_EMAIL_KEY)
    by (apply lookup_insert_ne, keys_differ).
  listener_cases w;
    (eexists; split; [rewrite <- ?app_assoc; try reflexivity;
                      symmetry; apply app_nil_r|]);
    (split; [intros [=]; try reflexivity|]);
    (split; [intros Hne; try (contradict Hne; reflexivity);
             split; reflexivity|]);
    (split; [first [left; reflexivity | right; reflexivity]|]);
    (split; [intros [=] Hfull; first [reflexivity | congruence]|]);
    (split; [first [reflexivity | exact Hflag]|]);
    intros a Ha; apply step_storage, Ha.
Qed.

Lemma storage_mutation_witness :
  storage (snd (@submitListener ascii_builtins
                  (demo_world alice_storage false (lit "alice@example.com")
                     (lit "pw"))))
  = <[SESSION_FLAG_KEY := lit "true"]> alice_storage
  /\ storage (snd (@submitListener ascii_builtins
                     (demo_world alice_storage false (lit "bob@example.com")
                        (lit "pw"))))
     = alice_storage.
Proof.
  split.
  - destruct (@storage_mutation ascii_builtins
                (demo_world alice_storage false (lit "alice@example.com")
                   (lit "pw")))
      as (new & _ & _ & _ & _ & Hacc & _).
    apply Hacc; reflexivity.
  - destruct (@storage_mutation ascii_builtins
                (demo_world alice_storage false (lit "bob@example.com")
                   (lit "pw")))
      as (new & _ & _ & Hrej & _).
    apply Hrej. vm_compute. discriminate.
Defined.

(** ** The credential store reader in the listener *)

Lemma storage_reads_app t1 t2 :
  storage_reads (t1 ++ t2) = storage_reads t1 ++ storage_reads t2.
Proof. apply flat_map_app. Qed.

Lemma read_credential_absent st :
  read_credential_spec st = None <->
  st !! REGISTERED_EMAIL_KEY = None
  \/ exists v, st !! REGISTERED_EMAIL_KEY = Some v
               /\ (sanitize_spec v = []
                   \/ isValidEmail (VString (sanitize_spec v)) = false).
Proof.
  unfold read_credential_spec, jsstring_eqb.
  destruct (st !! REGISTERED_EMAIL_KEY) as [v|].
  - case_bool_decide as E; cbn [orb].
    + split; [|reflexivity]. intros _. right. eauto.
    + destruct (isValidEmail (VString (sanitize_spec v))) eqn:Ev; cbn [negb].
      * split; [discriminate|].
        intros [Hn|(v' & [= <-] & [Hs|Hs])]; congruence.
      * split; [|reflexivity]. intros _. right. eauto.
  - split; [auto | reflexivity].
Qed.

Lemma sanitize_units v c :
  c ∈ sanitize_spec v ->
  c <> code_ASTERISK /\ c <> code_QUOTE /\ c <> code_APOSTROPHE /\ c ∈ v.
Proof.
  unfold sanitize_spec. intros Hc.
  destruct (trim_factor
              (List.filter
                 (fun c => negb ((c =? code_ASTERISK) || (c =? code_QUOTE)
                                 || (c =? code_APOSTROPHE))) v))
    as (l & r & E).
  assert (Hin : List.In c
                  (List.filter
                     (fun c => negb ((c =? code_ASTERISK) || (c =? code_QUOTE)
                                     || (c =? code_APOSTROPHE))) v)).
  { rewrite E. apply list_elem_of_In. set_solver. }
  apply filter_In in Hin as [Hv Hc'].
  apply negb_true_iff in Hc'. rewrite !orb_false_iff, !N.eqb_neq in Hc'.
  rewrite list_elem_of_In. tauto.
Qed.

(** C4: once the two validations have passed, the listener reads one key,
    the fixed registered-email key; the record counts as absent, with
    outcome [RejectedNoAccount], exactly when the key is missing, the value
    is empty after sanitization, or the sanitized value is not a valid
    email; otherwise the sanitized value is the record compared with the
    entered email.  Sanitization deletes every asterisk and quote and
    trims: no such unit is left, and the quoted, padded example yields the
    bare address. *)
Theorem credential_reader `{Builtins} (w : world) (email password : jsstring) :
  enteredEmail w = Some email ->
  enteredPassword w = Some password ->
  isValidEmail (VString email) = true ->
  blank password = false ->
  (exists new,
     trace (snd (submitListener w)) = trace w ++ new
     /\ storage_reads new = [REGISTERED_EMAIL_KEY])
  /\ (fst (submitListener w) = Normal (Some RejectedNoAccount) <->
      storage w !! REGISTERED_EMAIL_KEY = None
      \/ exists v, storage w !! REGISTERED_EMAIL_KEY = Some v
                   /\ (sanitize_spec v = []
                       \/ isValidEmail (VString (sanitize_spec v)) = false))
  /\ (forall v, storage w !! REGISTERED_EMAIL_KEY = Some v ->
        sanitize_spec v <> [] ->
        isValidEmail (VString (sanitize_spec v)) = true ->
        fst (submitListener w)
        = Normal (Some (if jsstring_eqb (toLowerCase email)
                                        (toLowerCase (sanitize_spec v))
                        then Accepted else RejectedMismatch)))
  /\ (forall v c, c ∈ sanitize_spec v ->
        c <> code_ASTERISK /\ c <> code_QUOTE /\ c <> code_APOSTROPHE
        /\ c ∈ v)
  /\ (forall v c t, sanitize_spec v = c :: t -> isWhiteSpace c = false)
  /\ (forall v t c, sanitize_spec v = t ++ [c] -> isWhiteSpace c = false)
  /\ sanitize_spec alice_stored = lit "alice@example.com".
Proof.
  intros He Hp Hv Hb.
  rewrite submitListener_run. cbn [fst snd].
  rewrite (listener_decision w email password He Hp).
  unfold auth_decision_spec. rewrite Hv, Hb. cbn [negb].
  split; [|split; [|split; [|split; [|split; [|split]]]]].
  - revert He Hp Hv Hb. unfold enteredEmail, enteredPassword.
    listener_cases w; cbn [fmap option_fmap option_map];
      intros [= <-] [= <-] Hv Hb;
      try match goal with
          | E : negb (isValidEmail _) = true |- _ =>
              rewrite Hv in E; discriminate E
          | E : negb (truthy _) || jsstring_eqb _ _ = true |- _ =>
              rewrite password_test_blank, Hb in E; discriminate E
          end;
      (eexists; split; [rewrite <- ?app_assoc; reflexivity|reflexivity]).
  - rewrite <- read_credential_absent.
    destruct (read_credential_spec (storage w)) as [r|].
    + destruct (jsstring_eqb _ _); split; discriminate.
    + tauto.
  - intros v Ev Hne Hval. unfold read_credential_spec, jsstring_eqb at 1.
    rewrite Ev. rewrite bool_decide_eq_false_2 by exact Hne.
    rewrite Hval. reflexivity.
  - apply sanitize_units.
  - intros v c t. apply trim_first.
  - intros v t c. apply trim_last.
  - vm_compute. reflexivity.
Qed.

Lemma credential_reader_witness :
  fst (@submitListener ascii_builtins
         (demo_world alice_storage false (lit "bob@example.com")
            (lit "secret")))
  = Normal (Some RejectedMismatch).
Proof.
  destruct (@credential_reader ascii_builtins
              (demo_world alice_storage false (lit "bob@example.com")
                 (lit "secret"))
              (lit "bob@example.com") (lit "secret")
              eq_refl eq_refl eq_refl eq_refl)
    as (_ & _ & Hrec & _).
  rewrite (Hrec alice_stored);
    [reflexivity | reflexivity | vm_compute; discriminate | reflexivity].
Defined.

(** ** Messages in the form *)

Lemma querySelectorAll_remove_all sel f :
  querySelectorAll sel (remove_all sel f) = [].
Proof.
  induction f as [|e c IHc s IHs]; simpl; [reflexivity|].
  destruct (sel e) eqn:E; [exact IHs|].
  simpl. rewrite E, IHc, IHs. reflexivity.
Qed.

Lemma querySelectorAll_nil_inv sel e c s :
  querySelectorAll sel (FNode e c s) = [] ->
  sel e = false /\ querySelectorAll sel c = [] /\ querySelectorAll sel s = [].
Proof.
  simpl. destruct (sel e); [discriminate|]. simpl.
  intros E. apply app_eq_nil in E. tauto.
Qed.

Lemma querySelectorAll_insertBefore sel sel' n f : forall f',
  insertBefore sel' n f = Some f' ->
  querySelectorAll sel f = [] -> sel n = true ->
  querySelectorAll sel f' = [n].
Proof.
  induction f as [|e c IHc s IHs]; intros f' Hi Hq Hn; [discriminate|].
  pose proof (querySelectorAll_nil_inv _ _ _ _ Hq) as (He & Hc & Hs).
  simpl in Hi. destruct (sel' e).
  - injection Hi as <-. simpl. rewrite Hn, He, Hc, Hs. reflexivity.
  - destruct (insertBefore sel' n c) as [c'|].
    + injection Hi as <-. simpl.
      rewrite He, (IHc c' eq_refl Hc Hn), Hs. reflexivity.
    + destruct (insertBefore sel' n s) as [s'|]; [|discriminate].
      injection Hi as <-. simpl.
      rewrite He, Hc, (IHs s' eq_refl Hs Hn). reflexivity.
Qed.

Lemma querySelectorAll_appendChild sel n f :
  querySelectorAll sel (appendChild n f)
  = querySelectorAll sel f ++ (if sel n then [n] else []).
Proof.
  induction f as [|e c _ s IHs]; simpl.
  - rewrite app_nil_r. reflexivity.
  - rewrite IHs, !app_assoc. reflexivity.
Qed.

Lemma querySelectorAll_update_first sel sel' g f : forall f',
  update_first sel' g f = Some f' ->
  (forall e, sel (g e) = sel e) ->
  (forall e, e ∈ querySelectorAll sel f -> sel' e = false) ->
  querySelectorAll sel f' = querySelectorAll sel f.
Proof.
  induction f as [|e c IHc s IHs]; intros f' Hu Hg Hd; [discriminate|].
  simpl in Hu, Hd. destruct (sel' e) eqn:E'.
  - injection Hu as <-. simpl. rewrite Hg.
    destruct (sel e); [|reflexivity].
    rewrite Hd in E'; [discriminate | set_solver].
  - destruct (update_first sel' g c) as [c'|].
    + injection Hu as <-. simpl. rewrite (IHc c' eq_refl Hg); [reflexivity|].
      intros x Hx. apply Hd. set_solver.
    + destruct (update_first sel' g s) as [s'|]; [|discriminate].
      injection Hu as <-. simpl. rewrite (IHs s' eq_refl Hg); [reflexivity|].
      intros x Hx. apply Hd. set_solver.
Qed.

Lemma message_element_is_message i kind text :
  sel_form_message (message_element i kind text) = true.
Proof.
  unfold sel_form_message, message_element. cbn [classList].
  apply bool_decide_eq_true_2. set_solver.
Qed.

Lemma message_element_not_submit i kind text :
  sel_submit_button (message_element i kind text) = false.
Proof. reflexivity. Qed.

(** After placing a message in a form cleared of messages, it is the
    only message. *)
Lemma messages_place_message i kind text f :
  querySelectorAll sel_form_message
    (place_message (message_element i kind text)
       (remove_all sel_form_message f))
  = [message_element i kind text].
Proof.
  unfold place_message.
  destruct (insertBefore _ _ _) as [f'|] eqn:E.
  - apply (querySelectorAll_insertBefore _ _ _ _ _ E).
    + apply querySelectorAll_remove_all.
    + apply message_element_is_message.
  - rewrite querySelectorAll_appendChild, querySelectorAll_remove_all.
    rewrite message_element_is_message. reflexivity.
Qed.

Lemma messages_disable_submit i kind text f :
  querySelectorAll sel_form_message f = [message_element i kind text] ->
  querySelectorAll sel_form_message (disable_submit f)
  = [message_element i kind text].
Proof.
  intros Hf. unfold disable_submit.
  destruct (update_first _ _ f) as [f'|] eqn:E; [|exact Hf].
  cbn [default]. rewrite <- Hf.
  apply (querySelectorAll_update_first _ _ _ _ _ E).
  - reflexivity.
  - intros e He. rewrite Hf in He. apply list_elem_of_singleton in He as ->.
    reflexivity.
Qed.

Lemma messages_after_error text w :
  messages (after_error text w)
  = [message_element (next_id w) (lit "error") text].
Proof. apply messages_place_message. Qed.

Lemma messages_after_success text w :
  messages (after_success text w)
  = [message_element (next_id w) (lit "success") text].
Proof. apply messages_disable_submit, messages_place_message. Qed.

(** ** The accepted path *)

Lemma dispatched_app t1 t2 :
  dispatched (t1 ++ t2) = dispatched t1 ++ dispatched t2.
Proof. apply flat_map_app. Qed.

(** The world an accepted submission leaves when the flag can be
    written. *)
Lemma listener_accepted `{Builtins} w email :
  enteredEmail w = Some email ->
  fst (listener_model w) = Some Accepted ->
  storage_full w = false ->
  exists registered,
    read_credential_spec (storage w) = Some registered
    /\ toLowerCase email = toLowerCase registered
    /\ storage (snd (listener_model w))
       = <[SESSION_FLAG_KEY := lit "true"]> (storage w)
    /\ trace (snd (listener_model w))
       = trace w ++ [EGetItem REGISTERED_EMAIL_KEY;
                     EConsoleLog email registered true;
                     ESetItem SESSION_FLAG_KEY (lit "true");
                     EDispatch (login_event_of email w)]
    /\ messages (snd (listener_model w))
       = [message_element (next_id w) (lit "success")
            (lit "Sign-in successful! Redirecting...")]
    /\ timers (snd (listener_model w))
       = timers w ++ [{| tm_callback := Navigate (lit "/");
                         tm_delay := 1500 |}].
Proof.
  unfold enteredEmail. intros He Ha Hfull. revert He Ha.
  rewrite <- cleaned_read_credential.
  unfold listener_model.
  destruct (emailInput w) as [ei|]; [|discriminate].
  cbn [fmap option_fmap option_map]. intros [= <-].
  destruct (passwordInput w) as [pi|]; [|discriminate]. cbv zeta.
  destruct (negb (isValidEmail _)); [discriminate|].
  destruct (negb (truthy _) || jsstring_eqb _ _); [discriminate|].
  destruct (cleaned _) as [reg|]; [|discriminate].
  destruct (negb (truthy (VString reg)) || negb (isValidEmail (VString reg)));
    [discriminate|].
  destruct (jsstring_eqb (toLowerCase _) (toLowerCase reg)) eqn:Elow;
    cbn [negb]; [|discriminate].
  apply bool_decide_eq_true_1 in Elow.
  rewrite Hfull. intros _. exists reg. cbn [snd].
  split; [reflexivity|]. split; [exact Elow|].
  split; [reflexivity|].
  split; [unfold append_trace; read_fields;
          rewrite <- !app_assoc; reflexivity|].
  split; [|reflexivity].
  match goal with
  | |- messages (with_timers _ (after_success ?t ?w')) = _ =>
      exact (messages_after_success t w')
  end.
Qed.

(** C5: an accepted submission, when the flag can be written, sets the
    session flag to true (the one storage write), dispatches one bubbling
    login event carrying the trimmed entered email as entered and the ISO
    string of the current time, leaves the success message as the only
    message in the form, and schedules one timer of 1500 ms whose firing
    sets the location to the site root and consumes the timer.  With the
    stored record of the example, the entered email in upper case and any
    password that is not blank, the submission is accepted. *)
Theorem accepted_effects `{Builtins} :
  (forall (w : world) (email : jsstring),
     enteredEmail w = Some email ->
     fst (submitListener w) = Normal (Some Accepted) ->
     storage_full w = false ->
     exists new,
       trace (snd (submitListener w)) = trace w ++ new
       /\ storage_writes new = [(SESSION_FLAG_KEY, lit "true")]
       /\ storage (snd (submitListener w))
          = <[SESSION_FLAG_KEY := lit "true"]> (storage w)
       /\ dispatched new
          = [{| ev_type := lit "login"; ev_bubbles := true;
                detail_email := email;
                detail_timestamp := toISOString (clock w) |}]
       /\ messages (snd (submitListener w))
          = [message_element (next_id w) (lit "success")
               (lit "Sign-in successful! Redirecting...")]
       /\ timers (snd (submitListener w))
          = timers w ++ [{| tm_callback := Navigate (lit "/");
                            tm_delay := 1500 |}]
       /\ href (step (TimerFires (length (timers w)))
                  (snd (submitListener w))) = lit "/"
       /\ timers (step (TimerFires (length (timers w)))
                    (snd (submitListener w))) = timers w)
  /\ (forall (w : world) (password : jsstring),
       enteredEmail w = Some (lit "ALICE@example.com") ->
       enteredPassword w = Some password ->
       blank password = false ->
       storage w !! REGISTERED_EMAIL_KEY = Some alice_stored ->
       toLowerCase (lit "ALICE@example.com")
       = toLowerCase (lit "alice@example.com") ->
       fst (submitListener w) = Normal (Some Accepted)).
Proof.
  split.
  - intros w email He. rewrite submitListener_run. cbn [fst snd].
    intros [= Ha] Hfull.
    destruct (listener_accepted w email He Ha Hfull)
      as (reg & _ & _ & Hst & Htr & Hmsg & Htm).
    eexists. split; [exact Htr|].
    split; [reflexivity|]. split; [exact Hst|].
    split; [reflexivity|]. split; [exact Hmsg|]. split; [exact Htm|].
    unfold step. rewrite Htm.
    rewrite (list_lookup_middle (timers w) [] _ _ eq_refl).
    cbn [tm_callback run_callback]. read_fields.
    rewrite delete_middle, app_nil_r. split; reflexivity.
  - intros w password He Hp Hb Hst Hlow.
    rewrite submitListener_run. cbn [fst].
    rewrite (listener_decision w _ password He Hp).
    assert (Es : sanitize_spec alice_stored = lit "alice@example.com")
      by (vm_compute; reflexivity).
    assert (Hup : isValidEmail (VString (lit "ALICE@example.com")) = true)
      by (vm_compute; reflexivity).
    assert (Hlo : isValidEmail (VString (lit "alice@example.com")) = true)
      by (vm_compute; reflexivity).
    assert (Hne : jsstring_eqb (lit "alice@example.com") [] = false)
      by (vm_compute; reflexivity).
    unfold auth_decision_spec, read_credential_spec.
    rewrite Hup, Hb, Hst, Es, Hlo, Hne. cbn [negb orb].
    unfold jsstring_eqb. rewrite (bool_decide_eq_true_2 _ Hlow).
    reflexivity.
Qed.

Lemma accepted_effects_witness :
  messages (snd (@submitListener ascii_builtins
                   (demo_world alice_storage false (lit "ALICE@example.com")
                      (lit "pw"))))
  = [message_element 4 (lit "success")
       (lit "Sign-in successful! Redirecting...")].
Proof.
  destruct (@accepted_effects ascii_builtins) as [Hgen Hex].
  assert (Hacc : fst (@submitListener ascii_builtins
                        (demo_world alice_storage false
                           (lit "ALICE@example.com") (lit "pw")))
                 = Normal (Some Accepted)).
  { apply (Hex _ (lit "pw")); reflexivity. }
  destruct (Hgen (demo_world alice_storage false (lit "ALICE@example.com")
                    (lit "pw"))
              (lit "ALICE@example.com") eq_refl Hacc eq_refl)
    as (new & _ & _ & _ & _ & Hmsg & _).
  exact Hmsg.
Defined.

(** ** The failing write *)

Lemma setItem_full key val w :
  storage_full w = true ->
  setItem key val w
  = (Throw QuotaExceededError, append_trace [ESetItem key val] w).
Proof. intros Hf. unfold setItem. run_monad. rewrite Hf. reflexivity. Qed.

(** The world an accepted submission leaves when the write throws. *)
Lemma listener_write_fails `{Builtins} w :
  fst (listener_model w) = Some Accepted ->
  storage_full w = true ->
  exists email registered,
    snd (listener_model w)
    = after_error (lit "Sign-in failed. Please try again.")
        (append_trace [EConsoleError QuotaExceededError]
           (append_trace [ESetItem SESSION_FLAG_KEY (lit "true")]
              (append_trace [EConsoleLog email registered true]
                 (append_trace [EGetItem REGISTERED_EMAIL_KEY] w)))).
Proof.
  intros Ha Hfull. revert Ha. unfold listener_model.
  destruct (emailInput w) as [ei|]; [|discriminate].
  destruct (passwordInput w) as [pi|]; [|discriminate]. cbv zeta.
  destruct (negb (isValidEmail _)); [discriminate|].
  destruct (negb (truthy _) || jsstring_eqb _ _); [discriminate|].
  destruct (cleaned _) as [reg|]; [|discriminate].
  destruct (negb (truthy (VString reg)) || negb (isValidEmail (VString reg)));
    [discriminate|].
  destruct (jsstring_eqb (toLowerCase _) (toLowerCase reg));
    cbn [negb]; [|discriminate].
  rewrite Hfull. intros _. cbn [snd]. eauto.
Qed.

(** Where storage is accessible: the storage write of the accepted path
    can throw; when it does, the listener still returns normally, the
    error is logged, the only message in the form is the error message
    with the text of the specification, nothing is stored or dispatched
    and no redirect is scheduled.  On every path of [submitListener] the
    listener returns normally and leaves exactly one message: the success
    message of an accepted submission whose write went through, or an
    error message of the listener. *)
Theorem effect_failure_is_caught `{Builtins} :
  (forall w, storage_full w = true ->
     fst (setItem SESSION_FLAG_KEY (lit "true") w)
     = Throw QuotaExceededError)
  /\ (forall w,
       fst (submitListener w) = Normal (Some Accepted) ->
       storage_full w = true ->
       messages (snd (submitListener w))
       = [message_element (next_id w) (lit "error")
            (lit "Sign-in failed. Please try again.")]
       /\ storage (snd (submitListener w)) = storage w
       /\ timers (snd (submitListener w))
          = timers w ++ [{| tm_callback := RemoveNode (next_id w);
                            tm_delay := 5000 |}]
       /\ exists new,
            trace (snd (submitListener w)) = trace w ++ new
            /\ dispatched new = []
            /\ EConsoleError QuotaExceededError ∈ new)
  /\ (forall w,
       exists o,
         fst (submitListener w) = Normal o
         /\ ((o = Some Accepted /\ storage_full w = false
              /\ messages (snd (submitListener w))
                 = [message_element (next_id w) (lit "success")
                      (lit "Sign-in successful! Redirecting...")])
             \/ exists text,
                  text ∈ error_messages
                  /\ messages (snd (submitListener w))
                     = [message_element (next_id w) (lit "error") text])).
Proof.
  split; [|split].
  - intros w Hf. rewrite (setItem_full _ _ w Hf). reflexivity.
  - intros w. rewrite submitListener_run. cbn [fst snd].
    intros [= Ha] Hf.
    destruct (listener_write_fails w Ha Hf) as (email & reg & ->).
    split; [exact (messages_after_error _ _)|].
    split; [reflexivity|]. split; [reflexivity|].
    eexists. split.
    + unfold after_error, append_trace. read_fields.
      rewrite <- !app_assoc. reflexivity.
    + split; [reflexivity|]. cbn [app]. set_solver.
  - intros w. rewrite submitListener_run. cbn [fst snd].
    eexists. split; [reflexivity|].
    listener_branches w;
      try (right; eexists; split;
           [|match goal with
             | |- messages (with_focused _ (after_error ?t ?w')) = _ =>
                 exact (messages_after_error t w')
             | |- messages (after_error ?t ?w') = _ =>
                 exact (messages_after_error t w')
             end];
           unfold error_messages; set_solver).
    left. split; [reflexivity|]. split; [reflexivity|].
    match goal with
    | |- messages (with_timers _ (after_success ?t ?w')) = _ =>
        exact (messages_after_success t w')
    end.
Qed.

Lemma effect_failure_is_caught_witness :
  messages (snd (@submitListener ascii_builtins
                   (demo_world alice_storage true (lit "alice@example.com")
                      (lit "pw"))))
  = [message_element 4 (lit "error")
       (lit "Sign-in failed. Please try again.")]
  /\ fst (setItem SESSION_FLAG_KEY (lit "true")
            (demo_world alice_storage true (lit "alice@example.com")
               (lit "pw")))
     = Throw QuotaExceededError.
Proof.
  destruct (@effect_failure_is_caught ascii_builtins) as (Hthrow & Hcatch & _).
  split.
  - apply (Hcatch (demo_world alice_storage true (lit "alice@example.com")
                     (lit "pw")));
      reflexivity.
  - apply Hthrow. reflexivity.
Defined.

(** ** Where the message goes *)

Lemma previousSiblingOf_none sel f : forall prev,
  querySelector sel f = None -> previousSiblingOf sel prev f = None.
Proof.
  induction f as [|e c IHc s IHs]; intros prev; simpl; [reflexivity|].
  destruct (sel e); [discriminate|].
  destruct (querySelector sel c); [discriminate|].
  intros Hs. rewrite (IHc None eq_refl). apply IHs, Hs.
Qed.

(** The inserted node is the previous sibling of the first match. *)
Lemma previousSiblingOf_insertBefore sel n f : forall f' prev,
  insertBefore sel n f = Some f' -> sel n = false ->
  previousSiblingOf sel prev f' = Some (Some n).
Proof.
  induction f as [|e c IHc s IHs]; intros f' prev Hi Hn; [discriminate|].
  simpl in Hi. destruct (sel e) eqn:E.
  - injection Hi as <-. simpl. rewrite Hn, E. reflexivity.
  - destruct (insertBefore sel n c) as [c'|] eqn:Ec.
    + injection Hi as <-. simpl. rewrite E, (IHc c' None eq_refl Hn).
      reflexivity.
    + destruct (insertBefore sel n s) as [s'|]; [|discriminate].
      injection Hi as <-. simpl. rewrite E.
      apply insertBefore_querySelector in Ec.
      rewrite (previousSiblingOf_none _ _ None Ec).
      apply (IHs s' _ eq_refl Hn).
Qed.

Lemma previousSiblingOf_update_first sel g f : forall f' prev,
  update_first sel g f = Some f' ->
  (forall e, sel (g e) = sel e) ->
  previousSiblingOf sel prev f' = previousSiblingOf sel prev f.
Proof.
  induction f as [|e c IHc s IHs]; intros f' prev Hu Hg; [discriminate|].
  simpl in Hu. destruct (sel e) eqn:E.
  - injection Hu as <-. simpl. rewrite Hg, E. reflexivity.
  - destruct (update_first sel g c) as [c'|] eqn:Ec.
    + injection Hu as <-. simpl. rewrite E, (IHc c' None eq_refl Hg).
      reflexivity.
    + destruct (update_first sel g s) as [s'|]; [|discriminate].
      injection Hu as <-. simpl. rewrite E.
      rewrite (IHs s' (Some e) eq_refl Hg). reflexivity.
Qed.

Lemma previousSiblingOf_disable_submit prev f :
  previousSiblingOf sel_submit_button prev (disable_submit f)
  = previousSiblingOf sel_submit_button prev f.
Proof.
  unfold disable_submit.
  destruct (update_first _ _ f) as [f'|] eqn:E; [|reflexivity].
  apply (previousSiblingOf_update_first _ _ _ _ _ E). reflexivity.
Qed.

Lemma lastChild_appendChild n f : lastChild (appendChild n f) = Some n.
Proof.
  induction f as [|e c _ s IHs]; [reflexivity|].
  simpl. destruct (appendChild n s) eqn:E; [|exact IHs].
  destruct s; discriminate.
Qed.

Lemma place_message_before_submit m f b :
  sel_submit_button m = false ->
  querySelector sel_submit_button f = Some b ->
  previousSiblingOf sel_submit_button None (place_message m f)
  = Some (Some m).
Proof.
  intros Hm Hb. unfold place_message.
  destruct (insertBefore sel_submit_button m f) as [f'|] eqn:E.
  - apply (previousSiblingOf_insertBefore _ _ _ _ _ E Hm).
  - apply insertBefore_querySelector in E. congruence.
Qed.

Lemma place_message_appended m f :
  querySelector sel_submit_button f = None ->
  place_message m f = appendChild m f.
Proof.
  intros Hb. unfold place_message.
  apply (insertBefore_querySelector _ m) in Hb. rewrite Hb. reflexivity.
Qed.

Lemma disable_submit_absent f :
  querySelector sel_submit_button f = None -> disable_submit f = f.
Proof.
  intros Hb. unfold disable_submit.
  apply (update_first_querySelector _ (set_disabled true)) in Hb.
  rewrite Hb. reflexivity.
Qed.

(** ** Counting messages along a run *)

Lemma querySelectorAll_remove_all_le sel sel' f :
  (length (querySelectorAll sel (remove_all sel' f))
   <= length (querySelectorAll sel f))%nat.
Proof.
  induction f as [|e c IHc s IHs]; simpl; [lia|].
  destruct (sel' e); simpl; rewrite !length_app; lia.
Qed.

Lemma querySelectorAll_update_all_length sel sel' g f :
  (forall e, sel (g e) = sel e) ->
  length (querySelectorAll sel (update_all sel' g f))
  = length (querySelectorAll sel f).
Proof.
  intros Hg. induction f as [|e c IHc s IHs]; simpl; [reflexivity|].
  rewrite !length_app, IHc, IHs.
  destruct (sel' e); rewrite ?Hg; destruct (sel e); reflexivity.
Qed.

Lemma submit_one_message `{Builtins} w :
  length (messages (step Submit w)) = 1%nat.
Proof.
  unfold step. rewrite submitListener_run. cbn [snd].
  listener_branches w;
    match goal with
    | |- context [messages (with_focused _ (after_error ?t ?w'))] =>
        change (messages (with_focused _ (after_error t w')))
          with (messages (after_error t w'));
        rewrite (messages_after_error t w')
    | |- context [messages (after_error ?t ?w')] =>
        rewrite (messages_after_error t w')
    | |- context [messages (with_timers _ (after_success ?t ?w'))] =>
        change (messages (with_timers _ (after_success t w')))
          with (messages (after_success t w'));
        rewrite (messages_after_success t w')
    end; reflexivity.
Qed.

Lemma step_messages_le `{Builtins} a w :
  a <> Submit ->
  (length (messages (step a w)) <= length (messages w))%nat.
Proof.
  intros Ha. destruct a as [i v| |n]; [|contradiction|].
  - unfold step, messages. read_fields.
    rewrite querySelectorAll_update_all_length; [lia | reflexivity].
  - unfold step. destruct (timers w !! n) as [[cb d]|]; [|lia].
    destruct cb; unfold messages, run_callback; read_fields;
      cbn [tm_callback]; read_fields; [|lia].
    apply querySelectorAll_remove_all_le.
Qed.

Lemma step_at_most_one `{Builtins} a w :
  (length (messages w) <= 1)%nat ->
  (length (messages (step a w)) <= 1)%nat.
Proof.
  intros Hw. destruct a as [i v| |n].
  - etransitivity; [apply step_messages_le; discriminate | exact Hw].
  - rewrite submit_one_message. lia.
  - etransitivity; [apply step_messages_le; discriminate | exact Hw].
Qed.

Lemma run_at_most_one `{Builtins} l : forall w,
  (length (messages w) <= 1)%nat ->
  (length (messages (run l w)) <= 1)%nat.
Proof.
  induction l as [|a l IH]; intros w Hw; [exact Hw|].
  apply IH, step_at_most_one, Hw.
Qed.

(** C8: showing a message of either kind clears the form of messages and
    leaves the new message as the only one, as the previous sibling of the
    submit button when the cleared form has one and as the last child of
    the form otherwise.  Every submission leaves exactly one message, and
    along any sequence of edits, submissions and timer firings a form that
    starts with at most one message never holds more than one; once a
    submission has taken place this holds whatever the form held before. *)
Theorem at_most_one_message `{Builtins} :
  (forall text w,
     querySelectorAll sel_form_message (remove_all sel_form_message (form w))
     = []
     /\ messages (snd (showErrorMessage text w))
        = [message_element (next_id w) (lit "error") text]
     /\ messages (snd (showSuccessMessage text w))
        = [message_element (next_id w) (lit "success") text])
  /\ (forall text w b,
       querySelector sel_submit_button
         (remove_all sel_form_message (form w)) = Some b ->
       previousSiblingOf sel_submit_button None
         (form (snd (showErrorMessage text w)))
       = Some (Some (message_element (next_id w) (lit "error") text))
       /\ previousSiblingOf sel_submit_button None
            (form (snd (showSuccessMessage text w)))
          = Some (Some (message_element (next_id w) (lit "success") text)))
  /\ (forall text w,
       querySelector sel_submit_button
         (remove_all sel_form_message (form w)) = None ->
       lastChild (form (snd (showErrorMessage text w)))
       = Some (message_element (next_id w) (lit "error") text)
       /\ lastChild (form (snd (showSuccessMessage text w)))
          = Some (message_element (next_id w) (lit "success") text))
  /\ (forall w, length (messages (step Submit w)) = 1%nat)
  /\ (forall l w,
       (length (messages w) <= 1)%nat ->
       (length (messages (run l w)) <= 1)%nat)
  /\ (forall l w,
       Submit ∈ l -> (length (messages (run l w)) <= 1)%nat).
Proof.
  split; [|split; [|split; [|split; [|split]]]].
  - intros text w. rewrite showErrorMessage_run, showSuccessMessage_run.
    cbn [snd]. split; [apply querySelectorAll_remove_all|].
    split; [apply messages_after_error | apply messages_after_success].
  - intros text w b Hb. rewrite showErrorMessage_run, showSuccessMessage_run.
    cbn [snd]. unfold after_error, after_success. read_fields.
    rewrite previousSiblingOf_disable_submit.
    split; apply (place_message_before_submit _ _ b); auto.
  - intros text w Hb. rewrite showErrorMessage_run, showSuccessMessage_run.
    cbn [snd]. unfold after_error, after_success. read_fields.
    rewrite !(place_message_appended _ _ Hb).
    rewrite disable_submit_absent
      by (apply querySelector_appendChild; [reflexivity | exact Hb]).
    split; apply lastChild_appendChild.
  - apply submit_one_message.
  - intros l. apply run_at_most_one.
  - intros l w Hl. apply list_elem_of_split in Hl as (l1 & l2 & ->).
    unfold run. rewrite fold_left_app. cbn [fold_left].
    apply run_at_most_one. rewrite submit_one_message. lia.
Qed.

Lemma at_most_one_message_witness :
  (length (messages
             (@run ascii_builtins
                [Submit; UserTypes 1 (lit "alice@example.com"); Submit;
                 TimerFires 0; Submit]
                (demo_world alice_storage false (lit "nobody") (lit "pw"))))
   <= 1)%nat
  /\ previousSiblingOf sel_submit_button None
       (form (snd (showErrorMessage (lit "Please enter your password")
                     (demo_world alice_storage false (lit "a@b.c") []))))
     = Some (Some (message_element 4 (lit "error")
                     (lit "Please enter your password"))).
Proof.
  destruct (@at_most_one_message ascii_builtins)
    as (_ & Hbefore & _ & _ & Hrun & _).
  split.
  - apply Hrun. vm_compute. lia.
  - assert (Hb : querySelector sel_submit_button
                   (remove_all sel_form_message
                      (form (demo_world alice_storage false (lit "a@b.c") [])))
                 = Some (submit_element 3)) by (vm_compute; reflexivity).
    destruct (Hbefore (lit "Please enter your password")
                (demo_world alice_storage false (lit "a@b.c") [])
                (submit_element 3) Hb) as [He _].
    exact He.
Defined.

(** ** The password is read for its blankness only *)

Lemma value_blind_related sel e1 e2 :
  value_blind sel -> element_same_but_password e1 e2 -> sel e2 = sel e1.
Proof.
  intros Hs [->|[_ ->]]; [reflexivity | apply Hs].
Qed.

Lemma sel_form_message_blind : value_blind sel_form_message.
Proof. intros e v. reflexivity. Qed.

Lemma sel_input_email_blind : value_blind sel_input_email.
Proof. intros e v. reflexivity. Qed.

Lemma sel_input_password_blind : value_blind sel_input_password.
Proof. intros e v. reflexivity. Qed.

Lemma sel_submit_button_blind : value_blind sel_submit_button.
Proof. intros e v. reflexivity. Qed.

Lemma element_same_refl e : element_same_but_password e e.
Proof. left. reflexivity. Qed.

Lemma element_same_eid e1 e2 :
  element_same_but_password e1 e2 -> eid e2 = eid e1.
Proof. intros [->|[_ ->]]; reflexivity. Qed.

Lemma element_same_disabled b e1 e2 :
  element_same_but_password e1 e2 ->
  element_same_but_password (set_disabled b e1) (set_disabled b e2).
Proof.
  intros [->|[Hp E]]; [left; reflexivity|].
  right. split; [exact Hp|]. rewrite E. reflexivity.
Qed.

Lemma querySelector_sound sel f e :
  querySelector sel f = Some e -> sel e = true.
Proof.
  induction f as [|x c IHc s IHs]; simpl; [discriminate|].
  destruct (sel x) eqn:E; [intros [= <-]; exact E|].
  destruct (querySelector sel c); [intros [= <-]; apply IHc; reflexivity|].
  exact IHs.
Qed.

Lemma querySelector_related sel f1 : forall f2,
  value_blind sel -> forest_same_but_password f1 f2 ->
  option_related element_same_but_password
    (querySelector sel f1) (querySelector sel f2).
Proof.
  induction f1 as [|e1 c1 IHc s1 IHs]; intros [|e2 c2 s2] Hs Hf;
    simpl in Hf; try contradiction; [exact I|].
  destruct Hf as (He & Hc & Hss). simpl.
  rewrite (value_blind_related sel e1 e2 Hs He).
  destruct (sel e1); [exact He|].
  specialize (IHc c2 Hs Hc).
  destruct (querySelector sel c1), (querySelector sel c2);
    simpl in IHc; try contradiction; [exact IHc|].
  apply IHs; assumption.
Qed.

Lemma remove_all_related sel f1 : forall f2,
  value_blind sel -> forest_same_but_password f1 f2 ->
  forest_same_but_password (remove_all sel f1) (remove_all sel f2).
Proof.
  induction f1 as [|e1 c1 IHc s1 IHs]; intros [|e2 c2 s2] Hs Hf;
    simpl in Hf; try contradiction; [exact I|].
  destruct Hf as (He & Hc & Hss). simpl.
  rewrite (value_blind_related sel e1 e2 Hs He).
  destruct (sel e1); [apply IHs; assumption|].
  simpl. auto.
Qed.

Lemma insertBefore_related sel n f1 : forall f2,
  value_blind sel -> forest_same_but_password f1 f2 ->
  option_related forest_same_but_password
    (insertBefore sel n f1) (insertBefore sel n f2).
Proof.
  induction f1 as [|e1 c1 IHc s1 IHs]; intros [|e2 c2 s2] Hs Hf;
    simpl in Hf; try contradiction; [exact I|].
  destruct Hf as (He & Hc & Hss). simpl.
  rewrite (value_blind_related sel e1 e2 Hs He).
  destruct (sel e1).
  - simpl. split; [apply element_same_refl|]. simpl. auto.
  - specialize (IHc c2 Hs Hc).
    destruct (insertBefore sel n c1), (insertBefore sel n c2);
      simpl in IHc; try contradiction; [simpl; auto|].
    specialize (IHs s2 Hs Hss).
    destruct (insertBefore sel n s1), (insertBefore sel n s2);
      simpl in IHs; try contradiction; simpl; auto.
Qed.

Lemma appendChild_related n f1 : forall f2,
  forest_same_but_password f1 f2 ->
  forest_same_but_password (appendChild n f1) (appendChild n f2).
Proof.
  induction f1 as [|e1 c1 _ s1 IHs]; intros [|e2 c2 s2] Hf;
    simpl in Hf; try contradiction.
  - simpl. split; [apply element_same_refl | auto].
  - destruct Hf as (He & Hc & Hss). simpl. auto.
Qed.

Lemma update_first_related sel b f1 : forall f2,
  value_blind sel -> forest_same_but_password f1 f2 ->
  option_related forest_same_but_password
    (update_first sel (set_disabled b) f1)
    (update_first sel (set_disabled b) f2).
Proof.
  induction f1 as [|e1 c1 IHc s1 IHs]; intros [|e2 c2 s2] Hs Hf;
    simpl in Hf; try contradiction; [exact I|].
  destruct Hf as (He & Hc & Hss). simpl.
  rewrite (value_blind_related sel e1 e2 Hs He).
  destruct (sel e1).
  - simpl. split; [apply element_same_disabled, He | auto].
  - specialize (IHc c2 Hs Hc).
    destruct (update_first sel _ c1), (update_first sel _ c2);
      simpl in IHc; try contradiction; [simpl; auto|].
    specialize (IHs s2 Hs Hss).
    destruct (update_first sel _ s1), (update_first sel _ s2);
      simpl in IHs; try contradiction; simpl; auto.
Qed.

Lemma place_message_related m f1 f2 :
  forest_same_but_password f1 f2 ->
  forest_same_but_password (place_message m f1) (place_message m f2).
Proof.
  intros Hf. unfold place_message.
  pose proof (insertBefore_related sel_submit_button m f1 f2
                sel_submit_button_blind Hf) as Hi.
  destruct (insertBefore _ m f1), (insertBefore _ m f2);
    simpl in Hi; try contradiction; [exact Hi|].
  apply appendChild_related, Hf.
Qed.

Lemma disable_submit_related f1 f2 :
  forest_same_but_password f1 f2 ->
  forest_same_but_password (disable_submit f1) (disable_submit f2).
Proof.
  intros Hf. unfold disable_submit.
  pose proof (update_first_related sel_submit_button true f1 f2
                sel_submit_button_blind Hf) as Hu.
  destruct (update_first _ _ f1), (update_first _ _ f2);
    simpl in Hu; try contradiction; assumption.
Qed.

Lemma email_input_not_password e :
  sel_input_email e = true -> sel_input_password e = false.
Proof.
  unfold sel_input_email, sel_input_password.
  intros H. apply andb_true_iff in H as [_ H].
  apply bool_decide_eq_true_1 in H. rewrite H.
  apply andb_false_iff. right. apply bool_decide_eq_false_2.
  vm_compute. discriminate.
Qed.

Lemma append_trace_related l w1 w2 :
  world_same_but_password w1 w2 ->
  world_same_but_password (append_trace l w1) (append_trace l w2).
Proof.
  intros (Hst & Hfull & Hclk & Hform & Hid & Hfoc & Htm & Hhref & Htr).
  unfold world_same_but_password, append_trace. read_fields.
  rewrite Htr. auto 10.
Qed.

Lemma with_focused_related o w1 w2 :
  world_same_but_password w1 w2 ->
  world_same_but_password (with_focused o w1) (with_focused o w2).
Proof.
  intros (Hst & Hfull & Hclk & Hform & Hid & Hfoc & Htm & Hhref & Htr).
  unfold world_same_but_password. read_fields. auto 10.
Qed.

Lemma with_timers_related l w1 w2 :
  world_same_but_password w1 w2 ->
  world_same_but_password (with_timers l w1) (with_timers l w2).
Proof.
  intros (Hst & Hfull & Hclk & Hform & Hid & Hfoc & Htm & Hhref & Htr).
  unfold world_same_but_password. read_fields. auto 10.
Qed.

Lemma with_storage_related m w1 w2 :
  world_same_but_password w1 w2 ->
  world_same_but_password (with_storage m w1) (with_storage m w2).
Proof.
  intros (Hst & Hfull & Hclk & Hform & Hid & Hfoc & Htm & Hhref & Htr).
  unfold world_same_but_password. read_fields. auto 10.
Qed.

Lemma after_error_related text w1 w2 :
  world_same_but_password w1 w2 ->
  world_same_but_password (after_error text w1) (after_error text w2).
Proof.
  intros (Hst & Hfull & Hclk & Hform & Hid & Hfoc & Htm & Hhref & Htr).
  unfold world_same_but_password, after_error. read_fields.
  rewrite Hid, Htm.
  repeat split; try assumption; try reflexivity.
  apply place_message_related, remove_all_related;
    [apply sel_form_message_blind | exact Hform].
Qed.

Lemma after_success_related text w1 w2 :
  world_same_but_password w1 w2 ->
  world_same_but_password (after_success text w1) (after_success text w2).
Proof.
  intros (Hst & Hfull & Hclk & Hform & Hid & Hfoc & Htm & Hhref & Htr).
  unfold world_same_but_password, after_success. read_fields.
  rewrite Hid.
  repeat split; try assumption; try reflexivity.
  apply disable_submit_related, place_message_related, remove_all_related;
    [apply sel_form_message_blind | exact Hform].
Qed.

(** Two runs of the listener on worlds that differ in the password only,
    both passwords being not blank, take the same branch and leave worlds
    that differ in the password only. *)
Lemma listener_related `{Builtins} w1 w2 p1 p2 :
  world_same_but_password w1 w2 ->
  enteredPassword w1 = Some p1 -> enteredPassword w2 = Some p2 ->
  blank p1 = false -> blank p2 = false ->
  fst (listener_model w1) = fst (listener_model w2)
  /\ world_same_but_password (snd (listener_model w1))
                             (snd (listener_model w2)).
Proof.
  intros Hw.
  pose proof Hw as
    (Hst & Hfull & Hclk & Hform & Hid & Hfoc & Htm & Hhref & Htr).
  pose proof (querySelector_related sel_input_email _ _
                sel_input_email_blind Hform) as Hei.
  pose proof (querySelector_related sel_input_password _ _
                sel_input_password_blind Hform) as Hpi.
  unfold enteredPassword, listener_model, emailInput, passwordInput,
    login_event_of.
  rewrite <- Hst, <- Hfull, <- Hclk, <- Htm.
  destruct (querySelector sel_input_password (form w1)) as [pi1|];
    [|discriminate].
  destruct (querySelector sel_input_password (form w2)) as [pi2|];
    [|discriminate].
  cbn [fmap option_fmap option_map]. intros [= <-] [= <-] Hb1 Hb2.
  clear Hpi.
  destruct (querySelector sel_input_email (form w1)) as [e1|] eqn:E1;
    destruct (querySelector sel_input_email (form w2)) as [e2|];
    simpl in Hei; try contradiction.
  - assert (e2 = e1) as ->.
    { destruct Hei as [->|[Hp _]]; [reflexivity|].
      apply querySelector_sound, email_input_not_password in E1.
      congruence. }
    cbv zeta. rewrite !password_test_blank, Hb1, Hb2.
    destruct (negb (isValidEmail _)).
    { split; [reflexivity|].
      apply with_focused_related, after_error_related, Hw. }
    destruct (cleaned _) as [reg|].
    2:{ split; [reflexivity|].
        apply after_error_related, append_trace_related, Hw. }
    destruct (negb (truthy (VString reg)) || negb (isValidEmail (VString reg))).
    { split; [reflexivity|].
      apply after_error_related, append_trace_related, Hw. }
    destruct (jsstring_eqb (toLowerCase _) (toLowerCase reg)); cbn [negb].
    2:{ split; [reflexivity|].
        apply with_focused_related, after_error_related.
        do 2 apply append_trace_related. exact Hw. }
    destruct (storage_full w1).
    + split; [reflexivity|].
      apply after_error_related. do 4 apply append_trace_related. exact Hw.
    + split; [reflexivity|].
      apply with_timers_related, after_success_related, append_trace_related,
        with_storage_related.
      do 3 apply append_trace_related. exact Hw.
  - split; [reflexivity|]. apply after_error_related, Hw.
Qed.

Lemma querySelectorAll_related sel f1 : forall f2,
  value_blind sel -> forest_same_but_password f1 f2 ->
  Forall2 element_same_but_password
    (querySelectorAll sel f1) (querySelectorAll sel f2).
Proof.
  induction f1 as [|e1 c1 IHc s1 IHs]; intros [|e2 c2 s2] Hs Hf;
    simpl in Hf; try contradiction; [constructor|].
  destruct Hf as (He & Hc & Hss). simpl.
  rewrite (value_blind_related sel e1 e2 Hs He).
  specialize (IHc c2 Hs Hc). specialize (IHs s2 Hs Hss).
  assert (Hh : Forall2 element_same_but_password
                 (if sel e1 then [e1] else []) (if sel e1 then [e2] else [])).
  { destruct (sel e1); [|constructor].
    constructor; [exact He | constructor]. }
  exact (Forall2_app Hh (Forall2_app IHc IHs)).
Qed.

(** Whatever the branch, the listener leaves one message, the node it
    has just created. *)
Lemma listener_message `{Builtins} w :
  exists kind text,
    messages (snd (listener_model w))
    = [message_element (next_id w) kind text].
Proof.
  listener_branches w; do 2 eexists;
    match goal with
    | |- messages (with_focused _ (after_error ?t ?w')) = _ =>
        exact (messages_after_error t w')
    | |- messages (after_error ?t ?w') = _ =>
        exact (messages_after_error t w')
    | |- messages (with_timers _ (after_success ?t ?w')) = _ =>
        exact (messages_after_success t w')
    end.
Qed.

(** C7: two submissions from worlds that agree on everything but the
    value of the password input (same entered email, same store, same
    clock), both passwords being neither empty nor whitespace-only, reach
    the same outcome and leave worlds that again agree on everything but
    that value: the same store, trace of storage calls, events and log
    entries, timers, focus and messages. *)
Theorem password_only_nonblank `{Builtins}
    (w1 w2 : world) (password1 password2 : jsstring) :
  world_same_but_password w1 w2 ->
  enteredPassword w1 = Some password1 ->
  enteredPassword w2 = Some password2 ->
  blank password1 = false ->
  blank password2 = false ->
  fst (submitListener w1) = fst (submitListener w2)
  /\ world_same_but_password (snd (submitListener w1))
                             (snd (submitListener w2))
  /\ storage (snd (submitListener w1)) = storage (snd (submitListener w2))
  /\ trace (snd (submitListener w1)) = trace (snd (submitListener w2))
  /\ timers (snd (submitListener w1)) = timers (snd (submitListener w2))
  /\ messages (snd (submitListener w1)) = messages (snd (submitListener w2)).
Proof.
  intros Hw Hp1 Hp2 Hb1 Hb2. rewrite !submitListener_run. cbn [fst snd].
  destruct (listener_related w1 w2 password1 password2 Hw Hp1 Hp2 Hb1 Hb2)
    as [Hfst Hsnd].
  split; [rewrite Hfst; reflexivity|]. split; [exact Hsnd|].
  pose proof Hsnd as
    (Hst & Hfull & Hclk & Hform & Hid & Hfoc & Htm & Hhref & Htr).
  split; [exact Hst|]. split; [exact Htr|]. split; [exact Htm|].
  pose proof (querySelectorAll_related sel_form_message _ _
                sel_form_message_blind Hform) as Hmsg.
  fold (messages (snd (listener_model w1))) in Hmsg.
  fold (messages (snd (listener_model w2))) in Hmsg.
  destruct (listener_message w1) as (kind & text & E1). rewrite E1 in Hmsg |- *.
  apply Forall2_cons_inv_l in Hmsg as (m & l & Hm & Hl & E2).
  apply Forall2_nil_inv_l in Hl as ->. rewrite E2.
  destruct Hm as [->|[Hp _]]; [reflexivity | discriminate Hp].
Qed.

Lemma password_only_nonblank_witness :
  fst (@submitListener ascii_builtins
         (demo_world alice_storage false (lit "alice@example.com")
            (lit "correct horse")))
  = fst (@submitListener ascii_builtins
           (demo_world alice_storage false (lit "alice@example.com")
              (lit "x"))).
Proof.
  assert (Hw : world_same_but_password
                 (demo_world alice_storage false (lit "alice@example.com")
                    (lit "correct horse"))
                 (demo_world alice_storage false (lit "alice@example.com")
                    (lit "x"))).
  { unfold world_same_but_password.
    cbn [demo_world demo_form form storage storage_full clock next_id
         focused timers href trace forest_same_but_password].
    repeat split; try reflexivity; try (left; reflexivity).
    right. split; reflexivity. }
  destruct (@password_only_nonblank ascii_builtins _ _
              (lit "correct horse") (lit "x") Hw
              eq_refl eq_refl eq_refl eq_refl) as [Hfst _].
  exact Hfst.
Defined.

(** ** The listener on the example world *)

Example listener_alice_trace :
  trace (snd (@submitListener ascii_builtins
                (demo_world alice_storage false (lit " ALICE@example.com")
                   (lit "pw"))))
  = [EGetItem REGISTERED_EMAIL_KEY;
     EConsoleLog (lit "ALICE@example.com") (lit "alice@example.com") true;
     ESetItem SESSION_FLAG_KEY (lit "true");
     EDispatch {| ev_type := lit "login"; ev_bubbles := true;
                  detail_email := lit "ALICE@example.com";
                  detail_timestamp := lit "2025-12-11T09:32:54.000Z" |}].
Proof. vm_compute. reflexivity. Qed.

Example listener_bob_mismatch :
  fst (@submitListener ascii_builtins
         (demo_world alice_storage false (lit "bob@example.com") (lit "pw")))
  = Normal (Some RejectedMismatch).
Proof. vm_compute. reflexivity. Qed.

Example listener_no_store :
  fst (@submitListener ascii_builtins
         (demo_world ∅ false (lit "bob@example.com") (lit "pw")))
  = Normal (Some RejectedNoAccount).
Proof. vm_compute. reflexivity. Qed.

Example listener_blank_password_reads_nothing :
  trace (snd (@submitListener ascii_builtins
                (demo_world alice_storage false (lit "alice@example.com")
                   (lit "   "))))
  = [].
Proof. vm_compute. reflexivity. Qed.

Example listener_success_disables_submit :
  disabled <$> querySelector sel_submit_button
    (form (snd (@submitListener ascii_builtins
                  (demo_world alice_storage false (lit "alice@example.com")
                     (lit "pw")))))
  = Some true.
Proof. vm_compute. reflexivity. Qed.

Example error_message_expires :
  messages (@run ascii_builtins [Submit; TimerFires 0]
              (demo_world ∅ false (lit "bob@example.com") (lit "pw")))
  = [].
Proof. vm_compute. reflexivity. Qed.

(** * Further properties of the validator *)

Lemma isValidEmail_regex s :
  isValidEmail (VString s) = regex_test emailRegex (trim s).
Proof.
  unfold isValidEmail, truthy, is_string, jsstring_eqb. cbn [negb orb].
  case_bool_decide as E; cbn [negb orb]; [|reflexivity].
  subst s. reflexivity.
Qed.

Lemma trimStart_app_blank l x : blank l = true -> trimStart (l ++ x) = trimStart x.
Proof.
  unfold blank. induction l as [|c l IH]; simpl; [reflexivity|].
  destruct (isWhiteSpace c); [exact IH | discriminate].
Qed.

Lemma trimStart_app_keep s r :
  trimStart s <> [] -> trimStart (s ++ r) = trimStart s ++ r.
Proof.
  induction s as [|c s IH]; simpl; [congruence|].
  destruct (isWhiteSpace c); [exact IH | reflexivity].
Qed.

Lemma trimEnd_app_blank x r : blank r = true -> trimEnd (x ++ r) = trimEnd x.
Proof.
  intros Hr. unfold trimEnd. rewrite rev_app_distr.
  rewrite trimStart_app_blank by (rewrite blank_rev; exact Hr).
  reflexivity.
Qed.

(** Whitespace around a string does not survive [trim]. *)
Lemma trim_padded l s r :
  blank l = true -> blank r = true -> trim (l ++ s ++ r) = trim s.
Proof.
  intros Hl Hr. unfold trim. rewrite (trimStart_app_blank l _ Hl).
  destruct (trimStart s) as [|c t] eqn:E.
  - apply trimStart_nil in E.
    assert (Hsr : blank (s ++ r) = true)
      by (unfold blank in *; rewrite forallb_app, E, Hr; reflexivity).
    apply trimStart_nil in Hsr. rewrite Hsr. reflexivity.
  - rewrite trimStart_app_keep by (rewrite E; discriminate).
    rewrite E. apply trimEnd_app_blank, Hr.
Qed.

Lemma trim_fixed c t y :
  isWhiteSpace c = false -> isWhiteSpace y = false ->
  trim (c :: t ++ [y]) = c :: t ++ [y].
Proof.
  intros Hc Hy. unfold trim. simpl. rewrite Hc.
  unfold trimEnd. change (c :: t ++ [y]) with ((c :: t) ++ [y]).
  rewrite rev_app_distr. simpl. rewrite Hy. simpl.
  rewrite rev_app_distr, rev_involutive. reflexivity.
Qed.

(** X1: whitespace before and after the address does not change the
    verdict of [isValidEmail]. *)
Theorem isValidEmail_padding (l s r : jsstring) :
  blank l = true -> blank r = true ->
  isValidEmail (VString (l ++ s ++ r)) = isValidEmail (VString s).
Proof.
  intros Hl Hr. rewrite !isValidEmail_regex, (trim_padded l s r Hl Hr).
  reflexivity.
Qed.

Lemma isValidEmail_padding_witness :
  isValidEmail (VString (lit "  " ++ lit "alice@example.com" ++ lit " "))
  = isValidEmail (VString (lit "alice@example.com")).
Proof. apply isValidEmail_padding; reflexivity. Defined.

Lemma plain_unit_not_space c : plain_unit c -> isWhiteSpace c = false.
Proof. intros [H _]. exact H. Qed.

(** X2: every address made of a non-empty local part, an at sign, a
    non-empty domain, a dot and a non-empty last label, none of them
    holding whitespace or an at sign, is accepted, also when surrounded by
    whitespace. *)
Theorem isValidEmail_accepts (l a b c r : jsstring) :
  a <> [] -> b <> [] -> c <> [] ->
  Forall plain_unit a -> Forall plain_unit b -> Forall plain_unit c ->
  blank l = true -> blank r = true ->
  isValidEmail
    (VString (l ++ (a ++ [code_AT] ++ b ++ [code_DOT] ++ c) ++ r)) = true.
Proof.
  intros Ha Hb Hc Fa Fb Fc Hl Hr.
  rewrite isValidEmail_regex, (trim_padded l _ r Hl Hr), <- isValidEmail_regex.
  apply isValidEmail_string.
  destruct a as [|x a]; [congruence|].
  destruct (exists_last Hc) as (c' & y & ->).
  split; [discriminate|].
  assert (Hx : isWhiteSpace x = false)
    by (apply plain_unit_not_space; inversion Fa; assumption).
  assert (Hy : isWhiteSpace y = false).
  { apply plain_unit_not_space. apply Forall_app in Fc as [_ Fy].
    inversion Fy; assumption. }
  assert (E : (x :: a) ++ [code_AT] ++ b ++ [code_DOT] ++ c' ++ [y]
              = x :: (a ++ [code_AT] ++ b ++ [code_DOT] ++ c') ++ [y]).
  { simpl. repeat (rewrite <- ?app_assoc; simpl). reflexivity. }
  rewrite E, (trim_fixed x _ y Hx Hy), <- E.
  exists (x :: a), b, (c' ++ [y]). auto 10.
Qed.

Lemma isValidEmail_accepts_witness :
  isValidEmail
    (VString (lit " " ++ (lit "first.last" ++ [code_AT] ++ lit "mail.example"
                            ++ [code_DOT] ++ lit "co.uk") ++ lit "  ")) = true.
Proof.
  apply isValidEmail_accepts; try (vm_compute; discriminate);
    try reflexivity;
    repeat constructor; vm_compute; discriminate.
Defined.

(** X3: an accepted string, once trimmed, holds exactly one at sign and
    no whitespace. *)
Theorem isValidEmail_one_at (s : jsstring) :
  isValidEmail (VString s) = true ->
  length (List.filter (N.eqb code_AT) (trim s)) = 1%nat
  /\ Forall (fun c => isWhiteSpace c = false) (trim s).
Proof.
  intros H. apply isValidEmail_string in H as [_ H].
  destruct H as (a & b & c & -> & _ & _ & _ & Fa & Fb & Fc).
  assert (Hno : forall l, Forall plain_unit l ->
                          List.filter (N.eqb code_AT) l = []).
  { induction 1 as [|x l [_ Hx] _ IH]; cbn [List.filter]; [reflexivity|].
    destruct (N.eqb_spec code_AT x); [congruence | exact IH]. }
  assert (Hws : forall l, Forall plain_unit l ->
                          Forall (fun c => isWhiteSpace c = false) l).
  { intros l Hl. induction Hl as [|x l [Hx _] _ IH]; constructor; auto. }
  split.
  - rewrite !List.filter_app, (Hno a Fa), (Hno b Fb), (Hno c Fc).
    reflexivity.
  - repeat (apply Forall_app; split); auto; repeat constructor.
Qed.

Lemma isValidEmail_one_at_witness :
  length (List.filter (N.eqb code_AT) (trim (lit " bob@example.org "))) = 1%nat
  /\ Forall (fun c => isWhiteSpace c = false) (trim (lit " bob@example.org ")).
Proof. apply isValidEmail_one_at. reflexivity. Defined.

(** * Further properties of the registration path *)

Lemma suffix_of_cons (t : jsstring) c s :
  t `suffix_of` c :: s -> t = c :: s \/ t `suffix_of` s.
Proof.
  intros [[|c' k] E]; simpl in E; [left; congruence|].
  right. exists k. congruence.
Qed.

(** The two ways [replace_regex_end] can go. *)
Lemma replace_regex_end_cases r rep s :
  ((forall t, t `suffix_of` s -> regex_test r t = false)
   /\ replace_regex_end r rep s = s)
  \/ (exists p m, s = p ++ m /\ regex_test r m = true
                  /\ replace_regex_end r rep s = p ++ rep).
Proof.
  induction s as [|c s IH]; rewrite replace_regex_end_unfold.
  - destruct (regex_test r []) eqn:E.
    + right. exists [], []. auto.
    + left. split; [|reflexivity].
      intros t Ht. apply suffix_nil_inv in Ht as ->. exact E.
  - destruct (regex_test r (c :: s)) eqn:E.
    + right. exists [], (c :: s). auto.
    + destruct IH as [[Hno Hid]|(p & m & -> & Hm & Hrep)].
      * left. split; [|rewrite Hid; reflexivity].
        intros t Ht. apply suffix_of_cons in Ht as [->|Ht]; auto.
      * right. exists (c :: p), m. rewrite Hrep. auto.
Qed.

Lemma registration_not_sign_in p t :
  t = lit "/sign-in" \/ t = lit "/sign-in.html" ->
  ~ t `suffix_of` p ++ lit "/registration".
Proof.
  intros Ht [k E]. apply (f_equal (@rev N)) in E.
  rewrite !rev_app_distr in E.
  destruct Ht as [->| ->]; vm_compute in E; discriminate E.
Qed.

(** X4: on a published page the computed path never ends in a sign-in
    segment, so computing it again changes nothing. *)
Theorem registrationPath_publish_settled (path : jsstring) :
  ~ lit "/sign-in" `suffix_of` registrationPath path false
  /\ ~ lit "/sign-in.html" `suffix_of` registrationPath path false
  /\ registrationPath (registrationPath path false) false
     = registrationPath path false.
Proof.
  unfold registrationPath.
  assert (Hno : forall t, t `suffix_of`
                            replace_regex_end signInRegex
                              (lit "/registration") path ->
                          regex_test signInRegex t = false).
  { destruct (replace_regex_end_cases signInRegex (lit "/registration") path)
      as [[Hno ->]|(p & m & -> & _ & ->)]; [exact Hno|].
    intros t Ht. apply not_true_is_false. intros Hm.
    apply signInRegex_words in Hm.
    exact (registration_not_sign_in p t Hm Ht). }
  split; [|split].
  - intros Hs. specialize (Hno _ Hs). discriminate.
  - intros Hs. specialize (Hno _ Hs). discriminate.
  - apply replace_regex_end_absent, Hno.
Qed.

Lemma startsWith_app pat s r :
  startsWith pat s = true -> startsWith pat (s ++ r) = true.
Proof.
  intros H. apply startsWith_spec in H as [x ->].
  apply startsWith_spec. exists (x ++ r). rewrite app_assoc. reflexivity.
Qed.

(** The leftmost occurrence splits the string. *)
Lemma includes_leftmost pat s :
  pat <> [] -> includes pat s = true ->
  exists p q, s = p ++ pat ++ q /\ includes pat p = false.
Proof.
  intros Hpat. induction s as [|c s IH]; rewrite includes_unfold.
  - rewrite orb_false_r. intros H. apply startsWith_spec in H as [r E].
    destruct pat; [congruence | discriminate].
  - destruct (startsWith pat (c :: s)) eqn:E.
    + intros _. apply startsWith_spec in E as [r E].
      exists [], r. split; [exact E|].
      destruct pat; [congruence | reflexivity].
    + cbn [orb]. intros H. destruct (IH H) as (p & q & -> & Hp).
      exists (c :: p), q. split; [reflexivity|].
      rewrite includes_unfold, Hp, orb_false_r.
      apply not_true_is_false. intros Hs.
      apply (startsWith_app _ _ (pat ++ q)) in Hs.
      change ((c :: p) ++ pat ++ q) with (c :: p ++ pat ++ q) in Hs.
      congruence.
Qed.

(** X5: on an authoring page whose path holds the sign-in page name,
    exactly the leftmost occurrence is replaced: the text before it holds
    no occurrence, the text before and after it is kept, and the path
    grows by the five units that the registration page name is longer. *)
Theorem registrationPath_author_leftmost (path : jsstring) :
  includes (lit "/sign-in.html") path = true ->
  exists p q,
    path = p ++ lit "/sign-in.html" ++ q
    /\ includes (lit "/sign-in.html") p = false
    /\ registrationPath path true = p ++ lit "/registration.html" ++ q
    /\ length (registrationPath path true) = (length path + 5)%nat.
Proof.
  intros H.
  destruct (includes_leftmost (lit "/sign-in.html") path) as (p & q & -> & Hp);
    [discriminate | exact H |].
  exists p, q. split; [reflexivity|]. split; [exact Hp|].
  assert (E : registrationPath (p ++ lit "/sign-in.html" ++ q) true
              = p ++ lit "/registration.html" ++ q).
  { unfold registrationPath. apply replace_string_leftmost.
    intros t Ht Hne. exact (sign_in_html_no_overlap p q t Hp Ht Hne). }
  split; [exact E|]. rewrite E, !length_app.
  change (length (lit "/registration.html")) with 18%nat.
  change (length (lit "/sign-in.html")) with 13%nat. lia.
Qed.

Lemma registrationPath_author_leftmost_witness :
  exists p q,
    lit "/content/sign-in.html/sign-in.html"
    = p ++ lit "/sign-in.html" ++ q
    /\ includes (lit "/sign-in.html") p = false
    /\ registrationPath (lit "/content/sign-in.html/sign-in.html") true
       = p ++ lit "/registration.html" ++ q
    /\ length (registrationPath (lit "/content/sign-in.html/sign-in.html")
                 true)
       = (length (lit "/content/sign-in.html/sign-in.html") + 5)%nat.
Proof. apply registrationPath_author_leftmost. reflexivity. Defined.

(** * Further properties of the listener *)

Ltac close_message_goal :=
  match goal with
  | |- messages (with_focused _ (after_error ?t ?w')) = _ =>
      exact (messages_after_error t w')
  | |- messages (after_error ?t ?w') = _ =>
      exact (messages_after_error t w')
  | |- messages (with_timers _ (after_success ?t ?w')) = _ =>
      exact (messages_after_success t w')
  end.

(** X6: each way the listener can end shows its own message: the five
    error texts for missing fields and the four rejections, the success
    text for an accepted submission, and the failure text when the storage
    write of an accepted submission throws. *)
Theorem outcome_message `{Builtins} (w : world) :
  exists o,
    fst (submitListener w) = Normal o
    /\ messages (snd (submitListener w))
       = [message_element (next_id w)
            (fst (shown_message o (storage_full w)))
            (snd (shown_message o (storage_full w)))].
Proof.
  rewrite submitListener_run. cbn [fst snd].
  eexists. split; [reflexivity|].
  listener_branches w; cbn [shown_message fst snd]; close_message_goal.
Qed.



(** Nodes all of which a removal selects leave no match behind. *)
Lemma querySelectorAll_remove_selected sel sel' f :
  Forall (fun e => sel' e = true) (querySelectorAll sel f) ->
  querySelectorAll sel (remove_all sel' f) = [].
Proof.
  induction f as [|e c IHc s IHs]; simpl; [reflexivity|].
  intros Hf. apply Forall_app in Hf as [He Hf].
  apply Forall_app in Hf as [Hc Hs].
  destruct (sel' e) eqn:E'; [apply IHs, Hs|].
  simpl. rewrite (IHc Hc), (IHs Hs).
  destruct (sel e); [|reflexivity].
  inversion He; congruence.
Qed.

(** X8: the listener itself never navigates and creates exactly one node;
    unless the submission is accepted and the flag written, no event is
    dispatched and the only timer scheduled is the removal, after 5000 ms,
    of the message just created: no redirect is pending. *)
Theorem rejected_effects `{Builtins} (w : world) :
  href (snd (submitListener w)) = href w
  /\ next_id (snd (submitListener w)) = S (next_id w)
  /\ (fst (submitListener w) <> Normal (Some Accepted)
      \/ storage_full w = true ->
      timers (snd (submitListener w))
      = timers w ++ [{| tm_callback := RemoveNode (next_id w);
                        tm_delay := 5000 |}]
      /\ exists new,
           trace (snd (submitListener w)) = trace w ++ new
           /\ dispatched new = []).
Proof.
  rewrite submitListener_run. cbn [fst snd].
  listener_cases w;
    (split; [reflexivity|]); (split; [reflexivity|]);
    intros Hrej;
    try (destruct Hrej as [Hrej|Hrej];
         [contradict Hrej; reflexivity | congruence]);
    (split; [reflexivity|]);
    (eexists; split;
     [rewrite <- ?app_assoc; try reflexivity; symmetry; apply app_nil_r
     |reflexivity]).
Qed.

Lemma rejected_effects_witness :
  timers (snd (@submitListener ascii_builtins
                 (demo_world alice_storage false (lit "bob@example.com")
                    (lit "pw"))))
  = [{| tm_callback := RemoveNode 4; tm_delay := 5000 |}].
Proof.
  destruct (@rejected_effects ascii_builtins
              (demo_world alice_storage false (lit "bob@example.com")
                 (lit "pw")))
    as (_ & _ & Hrej).
  assert (Hne : fst (@submitListener ascii_builtins
                       (demo_world alice_storage false
                          (lit "bob@example.com") (lit "pw")))
                <> Normal (Some Accepted))
    by (vm_compute; discriminate).
  destruct (Hrej (or_introl Hne)) as [Htm _]. exact Htm.
Defined.

(** Unless the flag is written, the timer the listener adds is the
    removal of its message. *)
Lemma listener_rejected_timers `{Builtins} w :
  fst (listener_model w) <> Some Accepted \/ storage_full w = true ->
  timers (snd (listener_model w))
  = timers w ++ [{| tm_callback := RemoveNode (next_id w);
                    tm_delay := 5000 |}].
Proof.
  listener_cases w; intros Hrej; try reflexivity.
  destruct Hrej as [Hrej|Hrej];
    [contradict Hrej; reflexivity | congruence].
Qed.

Lemma Normal_inj_ne {A} (a b : A) :
  @Normal A a <> Normal b -> a <> b.
Proof. intros Hne ->. apply Hne. reflexivity. Qed.

(** X9: when the timer that an error message scheduled fires, the form
    holds no message any more. *)
Theorem error_message_dismissed `{Builtins} (w : world) :
  fst (submitListener w) <> Normal (Some Accepted)
  \/ storage_full w = true ->
  messages (step (TimerFires (length (timers w))) (snd (submitListener w)))
  = [].
Proof.
  rewrite submitListener_run. cbn [fst snd]. intros Hrej.
  assert (Hrej' : fst (listener_model w) <> Some Accepted
                  \/ storage_full w = true)
    by (destruct Hrej as [Hne|Hf]; [left; apply Normal_inj_ne, Hne | auto]).
  pose proof (listener_rejected_timers w Hrej') as Htm.
  destruct (listener_message w) as (kind & text & Hmsg).
  unfold step. rewrite Htm.
  rewrite (list_lookup_middle (timers w) [] _ _ eq_refl).
  cbn [tm_callback run_callback]. unfold messages in *. read_fields.
  apply querySelectorAll_remove_selected. rewrite Hmsg.
  constructor; [|constructor].
  unfold has_id, message_element. cbn [eid]. apply Nat.eqb_refl.
Qed.

Lemma error_message_dismissed_witness :
  messages
    (@step ascii_builtins (TimerFires 0)
       (snd (@submitListener ascii_builtins
               (demo_world alice_storage false (lit "bob@example.com")
                  (lit "pw")))))
  = [].
Proof.
  assert (Hne : fst (@submitListener ascii_builtins
                       (demo_world alice_storage false
                          (lit "bob@example.com") (lit "pw")))
                <> Normal (Some Accepted))
    by (vm_compute; discriminate).
  exact (@error_message_dismissed ascii_builtins
           (demo_world alice_storage false (lit "bob@example.com")
              (lit "pw"))
           (or_introl Hne)).
Defined.

(** ** What the decision depends on *)

(** The branch taken depends on the world through the two inputs and the
    cleaned registered email only. *)
Lemma listener_outcome_congr `{Builtins} w1 w2 :
  emailInput w1 = emailInput w2 ->
  passwordInput w1 = passwordInput w2 ->
  cleaned (storage w1 !! REGISTERED_EMAIL_KEY)
  = cleaned (storage w2 !! REGISTERED_EMAIL_KEY) ->
  fst (listener_model w1) = fst (listener_model w2).
Proof.
  intros He Hp Hc. unfold listener_model. rewrite He, Hp, Hc.
  destruct (emailInput w2) as [ei|]; [|reflexivity].
  destruct (passwordInput w2) as [pi|]; [|reflexivity]. cbv zeta.
  repeat match goal with
    | |- context [if storage_full ?w then _ else _] =>
        destruct (storage_full w)
    | |- context [if ?c then _ else _] => destruct c
    | |- context [match cleaned ?x with _ => _ end] => destruct (cleaned x)
    end;
    reflexivity.
Qed.

Lemma cleaned_Some v :
  cleaned (Some v) = Some (trim (replace_class_all asteriskOrQuote [] v)).
Proof.
  unfold cleaned. cbn [of_nullable truthy]. unfold jsstring_eqb.
  case_bool_decide as E; cbn [negb fmap option_fmap option_map];
    [subst v|]; reflexivity.
Qed.

(** X10: the outcome does not depend on any other key of local storage:
    setting or deleting a key other than the registered-email key, the
    session flag included, leaves the outcome of a submission as it was. *)
Theorem outcome_ignores_other_keys `{Builtins}
    (w : world) (key val : jsstring) :
  key <> REGISTERED_EMAIL_KEY ->
  fst (submitListener (with_storage (<[key := val]> (storage w)) w))
  = fst (submitListener w)
  /\ fst (submitListener (with_storage (delete key (storage w)) w))
     = fst (submitListener w).
Proof.
  intros Hk. rewrite !submitListener_run. cbn [fst].
  split; f_equal; apply listener_outcome_congr; try reflexivity;
    read_fields; f_equal.
  - apply lookup_insert_ne, Hk.
  - apply lookup_delete_ne, Hk.
Qed.

Lemma outcome_ignores_other_keys_witness :
  fst (@submitListener ascii_builtins
         (with_storage
            (<[SESSION_FLAG_KEY := lit "true"]>
               (storage (demo_world alice_storage false
                           (lit "alice@example.com") (lit "pw"))))
            (demo_world alice_storage false (lit "alice@example.com")
               (lit "pw"))))
  = fst (@submitListener ascii_builtins
           (demo_world alice_storage false (lit "alice@example.com")
              (lit "pw"))).
Proof.
  destruct (@outcome_ignores_other_keys ascii_builtins
              (demo_world alice_storage false (lit "alice@example.com")
                 (lit "pw"))
              SESSION_FLAG_KEY (lit "true") keys_differ) as [Hset _].
  exact Hset.
Defined.

Lemma replace_class_all_app cls rep a b :
  replace_class_all cls rep (a ++ b)
  = replace_class_all cls rep a ++ replace_class_all cls rep b.
Proof. apply flat_map_app. Qed.

(** X11: an asterisk, a double quote or an apostrophe in the stored
    email is ignored wherever it stands, inside the address as well: the
    outcome is the one for the stored value without that unit. *)
Theorem stored_mask_ignored `{Builtins}
    (w : world) (a b : jsstring) (q : N) :
  asteriskOrQuote q = true ->
  storage w !! REGISTERED_EMAIL_KEY = Some (a ++ q :: b) ->
  fst (submitListener
         (with_storage (<[REGISTERED_EMAIL_KEY := a ++ b]> (storage w)) w))
  = fst (submitListener w).
Proof.
  intros Hq Hst. rewrite !submitListener_run. cbn [fst]. f_equal.
  apply listener_outcome_congr; try reflexivity. read_fields.
  rewrite lookup_insert_eq, Hst, !cleaned_Some. do 2 f_equal.
  assert (Eq : replace_class_all asteriskOrQuote [] [q] = [])
    by (unfold replace_class_all; cbn [flat_map]; rewrite Hq; reflexivity).
  change (a ++ q :: b) with (a ++ [q] ++ b).
  rewrite !replace_class_all_app, Eq. reflexivity.
Qed.

Lemma stored_mask_ignored_witness :
  fst (@submitListener ascii_builtins
         (with_storage
            (<[REGISTERED_EMAIL_KEY := lit "al" ++ lit "ice@example.com"]>
               (storage (demo_world masked_storage false
                           (lit "alice@example.com") (lit "pw"))))
            (demo_world masked_storage false (lit "alice@example.com")
               (lit "pw"))))
  = fst (@submitListener ascii_builtins
           (demo_world masked_storage false (lit "alice@example.com")
              (lit "pw"))).
Proof.
  assert (Hq : asteriskOrQuote code_ASTERISK = true) by reflexivity.
  assert (Hst : storage (demo_world masked_storage false
                           (lit "alice@example.com") (lit "pw"))
                  !! REGISTERED_EMAIL_KEY
                = Some (lit "al" ++ code_ASTERISK :: lit "ice@example.com"))
    by (vm_compute; reflexivity).
  exact (@stored_mask_ignored ascii_builtins
           (demo_world masked_storage false (lit "alice@example.com")
              (lit "pw"))
           (lit "al") (lit "ice@example.com") code_ASTERISK Hq Hst).
Defined.

Lemma sanitize_spec_junk v :
  Forall (fun c => asteriskOrQuote c || isWhiteSpace c = true) v ->
  sanitize_spec v = [].
Proof.
  intros Hv. unfold sanitize_spec. apply trim_nil_blank. unfold blank.
  induction Hv as [|c v Hc _ IH]; [reflexivity|].
  cbn [List.filter].
  change ((c =? code_ASTERISK) || (c =? code_QUOTE) || (c =? code_APOSTROPHE))
    with (asteriskOrQuote c).
  destruct (asteriskOrQuote c); cbn [negb orb] in *; [exact IH|].
  cbn [forallb]. rewrite Hc. exact IH.
Qed.

(** X12: a stored value made of asterisks, quotes and whitespace only
    (a pair of quotes around nothing, for one) counts as no account: a
    submission that passes both validations ends in [RejectedNoAccount]. *)
Theorem stored_junk_no_account `{Builtins}
    (w : world) (email password v : jsstring) :
  enteredEmail w = Some email ->
  enteredPassword w = Some password ->
  isValidEmail (VString email) = true ->
  blank password = false ->
  storage w !! REGISTERED_EMAIL_KEY = Some v ->
  Forall (fun c => asteriskOrQuote c || isWhiteSpace c = true) v ->
  fst (submitListener w) = Normal (Some RejectedNoAccount).
Proof.
  intros He Hp Hv Hb Hst Hjunk.
  rewrite submitListener_run. cbn [fst].
  rewrite (listener_decision w email password He Hp).
  unfold auth_decision_spec, read_credential_spec.
  rewrite Hv, Hb, Hst, (sanitize_spec_junk v Hjunk). reflexivity.
Qed.

Lemma stored_junk_no_account_witness :
  fst (@submitListener ascii_builtins
         (demo_world {[ REGISTERED_EMAIL_KEY := [code_QUOTE; code_QUOTE] ]}
            false (lit "alice@example.com") (lit "pw")))
  = Normal (Some RejectedNoAccount).
Proof.
  assert (Hst : storage
                  (demo_world
                     {[ REGISTERED_EMAIL_KEY := [code_QUOTE; code_QUOTE] ]}
                     false (lit "alice@example.com") (lit "pw"))
                  !! REGISTERED_EMAIL_KEY
                = Some [code_QUOTE; code_QUOTE])
    by (vm_compute; reflexivity).
  assert (Hjunk : Forall (fun c => asteriskOrQuote c || isWhiteSpace c = true)
                    [code_QUOTE; code_QUOTE])
    by (repeat constructor).
  exact (@stored_junk_no_account ascii_builtins
           (demo_world {[ REGISTERED_EMAIL_KEY := [code_QUOTE; code_QUOTE] ]}
              false (lit "alice@example.com") (lit "pw"))
           (lit "alice@example.com") (lit "pw") [code_QUOTE; code_QUOTE]
           eq_refl eq_refl eq_refl eq_refl Hst Hjunk).
Defined.

(** * Further properties of the form *)

Lemma remove_all_none sel f :
  querySelectorAll sel f = [] -> remove_all sel f = f.
Proof.
  induction f as [|e c IHc s IHs]; [reflexivity|].
  intros Hq. apply querySelectorAll_nil_inv in Hq as (He & Hc & Hs).
  simpl. rewrite He, (IHc Hc), (IHs Hs). reflexivity.
Qed.

Lemma remove_all_insertBefore sel sel' n f : forall f',
  insertBefore sel' n f = Some f' -> sel n = true ->
  remove_all sel f' = remove_all sel f.
Proof.
  induction f as [|e c IHc s IHs]; intros f' Hi Hn; [discriminate|].
  simpl in Hi. destruct (sel' e).
  - injection Hi as <-. cbn [remove_all]. rewrite Hn. reflexivity.
  - destruct (insertBefore sel' n c) as [c'|].
    + injection Hi as <-. cbn [remove_all].
      rewrite (IHc c' eq_refl Hn). reflexivity.
    + destruct (insertBefore sel' n s) as [s'|]; [|discriminate].
      injection Hi as <-. cbn [remove_all].
      rewrite (IHs s' eq_refl Hn). reflexivity.
Qed.

Lemma remove_all_appendChild sel n f :
  sel n = true -> remove_all sel (appendChild n f) = remove_all sel f.
Proof.
  intros Hn. induction f as [|e c _ s IHs]; cbn [appendChild remove_all].
  - rewrite Hn. reflexivity.
  - rewrite IHs. reflexivity.
Qed.

Lemma remove_all_place_message sel m f :
  sel m = true -> remove_all sel (place_message m f) = remove_all sel f.
Proof.
  intros Hm. unfold place_message.
  destruct (insertBefore sel_submit_button m f) as [f'|] eqn:E.
  - apply (remove_all_insertBefore _ _ _ _ _ E Hm).
  - apply remove_all_appendChild, Hm.
Qed.

(** Disabling the first match and inserting a node before it commute. *)
Lemma update_first_insertBefore sel g n f : forall f1,
  sel n = false -> (forall e, sel (g e) = sel e) ->
  insertBefore sel n f = Some f1 ->
  exists f2 f3,
    update_first sel g f = Some f2
    /\ update_first sel g f1 = Some f3
    /\ insertBefore sel n f2 = Some f3.
Proof.
  induction f as [|e c IHc s IHs]; intros f1 Hn Hg Hi; [discriminate|].
  simpl in Hi. cbn [update_first]. destruct (sel e) eqn:E.
  - injection Hi as <-. do 2 eexists. split; [reflexivity|].
    cbn [update_first insertBefore]. rewrite Hn, E, Hg, E.
    split; reflexivity.
  - destruct (insertBefore sel n c) as [c'|] eqn:Ec.
    + injection Hi as <-.
      destruct (IHc c' Hn Hg eq_refl) as (c2 & c3 & Hu & Hu' & Hi').
      rewrite Hu. do 2 eexists. split; [reflexivity|].
      cbn [update_first insertBefore]. rewrite E, Hu', Hi'.
      split; reflexivity.
    + destruct (insertBefore sel n s) as [s'|] eqn:Es; [|discriminate].
      injection Hi as <-.
      destruct (IHs s' Hn Hg eq_refl) as (s2 & s3 & Hu & Hu' & Hi').
      assert (Hc : update_first sel g c = None).
      { apply update_first_querySelector.
        apply insertBefore_querySelector in Ec. exact Ec. }
      rewrite Hc, Hu. do 2 eexists. split; [reflexivity|].
      cbn [update_first insertBefore]. rewrite E, Hc, Hu', Ec, Hi'.
      split; reflexivity.
Qed.

Lemma disable_place_commute m f :
  sel_submit_button m = false ->
  disable_submit (place_message m f) = place_message m (disable_submit f).
Proof.
  intros Hm. unfold place_message at 1.
  destruct (insertBefore sel_submit_button m f) as [f1|] eqn:E.
  - destruct (update_first_insertBefore sel_submit_button (set_disabled true)
                m f f1 Hm (fun e => eq_refl) E)
      as (f2 & f3 & Hu & Hu' & Hi).
    unfold disable_submit, place_message. rewrite Hu, Hu'.
    change (default f (Some f2)) with f2. rewrite Hi. reflexivity.
  - apply insertBefore_querySelector in E.
    rewrite (disable_submit_absent f E).
    rewrite disable_submit_absent
      by (apply querySelector_appendChild; assumption).
    rewrite (place_message_appended m f E). reflexivity.
Qed.

Lemma querySelectorAll_disable_submit_none f :
  querySelectorAll sel_form_message f = [] ->
  querySelectorAll sel_form_message (disable_submit f) = [].
Proof.
  intros Hf. unfold disable_submit.
  destruct (update_first _ _ f) as [f'|] eqn:E; [|exact Hf].
  cbn [default]. rewrite <- Hf.
  apply (querySelectorAll_update_first _ _ _ _ _ E); [reflexivity|].
  intros e He. rewrite Hf in He. inversion He.
Qed.

(** Apart from its message, the form after [showErrorMessage] is the
    form cleared of messages. *)
Lemma after_error_frame text w :
  remove_all sel_form_message (form (after_error text w))
  = remove_all sel_form_message (form w).
Proof.
  unfold after_error. read_fields.
  rewrite remove_all_place_message by apply message_element_is_message.
  apply remove_all_none, querySelectorAll_remove_all.
Qed.

(** After [showSuccessMessage] it is that form with the button disabled. *)
Lemma after_success_frame text w :
  remove_all sel_form_message (form (after_success text w))
  = disable_submit (remove_all sel_form_message (form w)).
Proof.
  unfold after_success. read_fields.
  rewrite disable_place_commute by reflexivity.
  rewrite remove_all_place_message by apply message_element_is_message.
  apply remove_all_none, querySelectorAll_disable_submit_none,
    querySelectorAll_remove_all.
Qed.

(** The form the listener leaves. *)
Lemma listener_form `{Builtins} w :
  (fst (listener_model w) <> Some Accepted \/ storage_full w = true ->
   exists text,
     form (snd (listener_model w)) = form (after_error text w))
  /\ (fst (listener_model w) = Some Accepted -> storage_full w = false ->
      exists text,
        form (snd (listener_model w)) = form (after_success text w)).
Proof.
  listener_branches w; split;
    try (intros _; eexists; reflexivity);
    try (intros; discriminate);
    try (intros; congruence);
    try (intros _ _; eexists; reflexivity).
  intros [Hne|Hf]; [contradict Hne; reflexivity | congruence].
Qed.

(** X13: a submission changes nothing in the form but its messages and,
    when the flag was written, the disabled state of the submit button:
    cleared of messages, the form after a submission is the form before
    cleared of messages, with the button disabled after a success. *)
Theorem form_frame `{Builtins} (w : world) :
  (fst (submitListener w) <> Normal (Some Accepted)
   \/ storage_full w = true ->
   remove_all sel_form_message (form (snd (submitListener w)))
   = remove_all sel_form_message (form w))
  /\ (fst (submitListener w) = Normal (Some Accepted) ->
      storage_full w = false ->
      remove_all sel_form_message (form (snd (submitListener w)))
      = disable_submit (remove_all sel_form_message (form w))).
Proof.
  rewrite submitListener_run. cbn [fst snd].
  destruct (listener_form w) as [Herr Hok]. split.
  - intros Hrej.
    assert (Hrej' : fst (listener_model w) <> Some Accepted
                    \/ storage_full w = true)
      by (destruct Hrej as [Hne|Hf]; [left; apply Normal_inj_ne, Hne | auto]).
    destruct (Herr Hrej') as [text ->]. apply after_error_frame.
  - intros [= Ha] Hfull. destruct (Hok Ha Hfull) as [text ->].
    apply after_success_frame.
Qed.

Lemma form_frame_witness :
  remove_all sel_form_message
    (form (snd (@submitListener ascii_builtins
                  (demo_world alice_storage false (lit "bob@example.com")
                     (lit "pw")))))
  = demo_form (lit "bob@example.com") (lit "pw")
  /\ remove_all sel_form_message
       (form (snd (@submitListener ascii_builtins
                     (demo_world alice_storage false
                        (lit "alice@example.com") (lit "pw")))))
     = disable_submit (demo_form (lit "alice@example.com") (lit "pw")).
Proof.
  split.
  - assert (Hne : fst (@submitListener ascii_builtins
                         (demo_world alice_storage false
                            (lit "bob@example.com") (lit "pw")))
                  <> Normal (Some Accepted))
      by (vm_compute; discriminate).
    destruct (@form_frame ascii_builtins
                (demo_world alice_storage false (lit "bob@example.com")
                   (lit "pw"))) as [Hrej _].
    rewrite (Hrej (or_introl Hne)). reflexivity.
  - assert (Hacc : fst (@submitListener ascii_builtins
                          (demo_world alice_storage false
                             (lit "alice@example.com") (lit "pw")))
                   = Normal (Some Accepted))
      by (vm_compute; reflexivity).
    destruct (@form_frame ascii_builtins
                (demo_world alice_storage false (lit "alice@example.com")
                   (lit "pw"))) as [_ Hok].
    rewrite (Hok Hacc eq_refl). reflexivity.
Defined.

(** ** Node identities *)

Lemma forest_all_impl (P Q : element -> bool) f :
  (forall e, P e = true -> Q e = true) ->
  forest_all P f = true -> forest_all Q f = true.
Proof.
  intros HPQ. induction f as [|e c IHc s IHs]; [reflexivity|].
  cbn [forest_all]. rewrite !andb_true_iff. intros [[He Hc] Hs]. auto.
Qed.

Lemma forest_all_remove_all P sel f :
  forest_all P f = true -> forest_all P (remove_all sel f) = true.
Proof.
  induction f as [|e c IHc s IHs]; [reflexivity|].
  cbn [forest_all remove_all]. rewrite !andb_true_iff. intros [[He Hc] Hs].
  destruct (sel e); [auto|]. cbn [forest_all].
  rewrite He, (IHc Hc), (IHs Hs). reflexivity.
Qed.

Lemma forest_all_insertBefore P sel n f : forall f',
  insertBefore sel n f = Some f' -> P n = true ->
  forest_all P f = true -> forest_all P f' = true.
Proof.
  induction f as [|e c IHc s IHs]; intros f' Hi Hn; [discriminate|].
  cbn [forest_all]. rewrite !andb_true_iff. intros [[He Hc] Hs].
  simpl in Hi. destruct (sel e).
  - injection Hi as <-. cbn [forest_all]. rewrite Hn, He, Hc, Hs. reflexivity.
  - destruct (insertBefore sel n c) as [c'|].
    + injection Hi as <-. cbn [forest_all].
      rewrite He, (IHc c' eq_refl Hn Hc), Hs. reflexivity.
    + destruct (insertBefore sel n s) as [s'|]; [|discriminate].
      injection Hi as <-. cbn [forest_all].
      rewrite He, Hc, (IHs s' eq_refl Hn Hs). reflexivity.
Qed.

Lemma forest_all_appendChild P n f :
  P n = true -> forest_all P f = true ->
  forest_all P (appendChild n f) = true.
Proof.
  intros Hn. induction f as [|e c _ s IHs]; cbn [appendChild forest_all].
  - intros _. rewrite Hn. reflexivity.
  - rewrite !andb_true_iff. intros [[He Hc] Hs]. auto.
Qed.

Lemma forest_all_update_first P sel g f : forall f',
  update_first sel g f = Some f' ->
  (forall e, P e = true -> P (g e) = true) ->
  forest_all P f = true -> forest_all P f' = true.
Proof.
  induction f as [|e c IHc s IHs]; intros f' Hu Hg; [discriminate|].
  cbn [forest_all]. rewrite !andb_true_iff. intros [[He Hc] Hs].
  simpl in Hu. destruct (sel e).
  - injection Hu as <-. cbn [forest_all].
    rewrite (Hg e He), Hc, Hs. reflexivity.
  - destruct (update_first sel g c) as [c'|].
    + injection Hu as <-. cbn [forest_all].
      rewrite He, (IHc c' eq_refl Hg Hc), Hs. reflexivity.
    + destruct (update_first sel g s) as [s'|]; [|discriminate].
      injection Hu as <-. cbn [forest_all].
      rewrite He, Hc, (IHs s' eq_refl Hg Hs). reflexivity.
Qed.

Lemma forest_all_place_message P m f :
  P m = true -> forest_all P f = true ->
  forest_all P (place_message m f) = true.
Proof.
  intros Hm Hf. unfold place_message.
  destruct (insertBefore sel_submit_button m f) as [f'|] eqn:E.
  - apply (forest_all_insertBefore _ _ _ _ _ E Hm Hf).
  - apply forest_all_appendChild; assumption.
Qed.

Lemma forest_all_disable_submit P f :
  (forall e, P e = true -> P (set_disabled true e) = true) ->
  forest_all P f = true -> forest_all P (disable_submit f) = true.
Proof.
  intros Hg Hf. unfold disable_submit.
  destruct (update_first _ _ f) as [f'|] eqn:E; [|exact Hf].
  apply (forest_all_update_first _ _ _ _ _ E Hg Hf).
Qed.

Lemma remove_all_forest_none sel f :
  forest_all (fun e => negb (sel e)) f = true -> remove_all sel f = f.
Proof.
  induction f as [|e c IHc s IHs]; [reflexivity|].
  cbn [forest_all remove_all]. rewrite !andb_true_iff, negb_true_iff.
  intros [[He Hc] Hs]. rewrite He, (IHc Hc), (IHs Hs). reflexivity.
Qed.

(** In a form whose nodes are older than [n], no node has identity [n],
    also once the form is cleared of messages. *)
Lemma fresh_cleared n f :
  forest_all (fun e => Nat.ltb (eid e) n) f = true ->
  forest_all (fun e => negb (has_id n e))
    (remove_all sel_form_message f) = true.
Proof.
  intros Hf. apply forest_all_remove_all.
  revert Hf. apply forest_all_impl. intros e He.
  unfold has_id. apply Nat.ltb_lt in He.
  apply negb_true_iff, Nat.eqb_neq. lia.
Qed.

(** X14: when every node of the form is older than the message about to
    be created, an error message that comes and is dismissed by its timer
    leaves the form as it was before, cleared of earlier messages; a form
    that held no message is exactly as before. *)
Theorem error_round_trip `{Builtins} (w : world) :
  fresh_ids w = true ->
  fst (submitListener w) <> Normal (Some Accepted)
  \/ storage_full w = true ->
  form (step (TimerFires (length (timers w))) (snd (submitListener w)))
  = remove_all sel_form_message (form w)
  /\ (messages w = [] ->
      form (step (TimerFires (length (timers w))) (snd (submitListener w)))
      = form w).
Proof.
  rewrite submitListener_run. cbn [fst snd]. intros Hfresh Hrej.
  assert (Hrej' : fst (listener_model w) <> Some Accepted
                  \/ storage_full w = true)
    by (destruct Hrej as [Hne|Hf]; [left; apply Normal_inj_ne, Hne | auto]).
  pose proof (listener_rejected_timers w Hrej') as Htm.
  destruct (listener_form w) as [Herr _].
  destruct (Herr Hrej') as [text Hform].
  assert (E : form (step (TimerFires (length (timers w)))
                      (snd (listener_model w)))
              = remove_all sel_form_message (form w)).
  { unfold step. rewrite Htm.
    rewrite (list_lookup_middle (timers w) [] _ _ eq_refl).
    cbn [tm_callback run_callback]. read_fields. rewrite Hform.
    unfold after_error. read_fields.
    rewrite remove_all_place_message by apply Nat.eqb_refl.
    apply remove_all_forest_none, fresh_cleared, Hfresh. }
  split; [exact E|].
  intros Hmsg. rewrite E. apply remove_all_none, Hmsg.
Qed.

Lemma error_round_trip_witness :
  form (@step ascii_builtins (TimerFires 0)
          (snd (@submitListener ascii_builtins
                  (demo_world alice_storage false (lit "bob@example.com")
                     (lit "pw")))))
  = demo_form (lit "bob@example.com") (lit "pw").
Proof.
  assert (Hne : fst (@submitListener ascii_builtins
                       (demo_world alice_storage false
                          (lit "bob@example.com") (lit "pw")))
                <> Normal (Some Accepted))
    by (vm_compute; discriminate).
  destruct (@error_round_trip ascii_builtins
              (demo_world alice_storage false (lit "bob@example.com")
                 (lit "pw"))
              eq_refl (or_introl Hne)) as [_ Hsame].
  apply Hsame. reflexivity.
Defined.

(** Every run of the listener schedules one timer: the removal of the
    node it created, or the redirect. *)
Lemma listener_timer `{Builtins} w :
  exists cb d,
    timers (snd (listener_model w))
    = timers w ++ [{| tm_callback := cb; tm_delay := d |}]
    /\ (cb = RemoveNode (next_id w) \/ cb = Navigate (lit "/")).
Proof.
  listener_cases w; do 2 eexists; (split; [reflexivity|]); auto.
Qed.

Lemma listener_next_id `{Builtins} w :
  next_id (snd (listener_model w)) = S (next_id w).
Proof. listener_cases w; reflexivity. Qed.

Lemma listener_form_cases `{Builtins} w :
  exists text,
    form (snd (listener_model w)) = form (after_error text w)
    \/ form (snd (listener_model w)) = form (after_success text w).
Proof.
  listener_branches w; eexists;
    first [left; reflexivity | right; reflexivity].
Qed.

(** A property of nodes that the created message has and that disabling
    keeps holds of the form the listener leaves, cleared of messages. *)
Lemma listener_cleared_all `{Builtins} P w :
  (forall e, P e = true -> P (set_disabled true e) = true) ->
  forest_all P (remove_all sel_form_message (form w)) = true ->
  forest_all P
    (remove_all sel_form_message (form (snd (listener_model w)))) = true.
Proof.
  intros Hg Hf. destruct (listener_form_cases w) as [text [-> | ->]].
  - rewrite after_error_frame. exact Hf.
  - rewrite after_success_frame. apply forest_all_disable_submit; assumption.
Qed.

Lemma listener_form_all `{Builtins} P w :
  (forall e, P e = true -> P (set_disabled true e) = true) ->
  (forall kind text, P (message_element (next_id w) kind text) = true) ->
  forest_all P (remove_all sel_form_message (form w)) = true ->
  forest_all P (form (snd (listener_model w))) = true.
Proof.
  intros Hg Hm Hf. destruct (listener_form_cases w) as [text [-> | ->]].
  - unfold after_error. read_fields.
    apply forest_all_place_message; [apply Hm | exact Hf].
  - unfold after_success. read_fields.
    apply forest_all_disable_submit; [exact Hg|].
    apply forest_all_place_message; [apply Hm | exact Hf].
Qed.

(** X15: the timer of an earlier submission cannot touch the message of
    a later one.  When every node of the form is older than the nodes to
    be created, then after two submissions the firing of the timer that
    the first one scheduled leaves the form, with the second message, as
    it is. *)
Theorem stale_timer_harmless `{Builtins} (w : world) :
  fresh_ids w = true ->
  form (step (TimerFires (length (timers w)))
          (snd (submitListener (snd (submitListener w)))))
  = form (snd (submitListener (snd (submitListener w)))).
Proof.
  intros Hfresh. rewrite !submitListener_run. cbn [snd].
  set (w1 := snd (listener_model w)).
  destruct (listener_timer w) as (cb1 & d1 & Ht1 & Hcb1).
  destruct (listener_timer w1) as (cb2 & d2 & Ht2 & _).
  fold w1 in Ht1. rewrite Ht1 in Ht2.
  unfold step. rewrite Ht2.
  assert (Hlook : ((timers w ++ [{| tm_callback := cb1; tm_delay := d1 |}])
                   ++ [{| tm_callback := cb2; tm_delay := d2 |}])
                    !! length (timers w)
                  = Some {| tm_callback := cb1; tm_delay := d1 |}).
  { rewrite <- app_assoc. apply list_lookup_middle. reflexivity. }
  rewrite Hlook. cbn [tm_callback].
  destruct Hcb1 as [-> | ->]; cbn [run_callback]; read_fields;
    [|reflexivity].
  apply remove_all_forest_none.
  apply listener_form_all.
  - intros e He. exact He.
  - intros kind text. unfold has_id, message_element. cbn [eid].
    unfold w1. rewrite listener_next_id.
    apply negb_true_iff, Nat.eqb_neq. lia.
  - unfold w1. apply listener_cleared_all; [intros e He; exact He|].
    apply fresh_cleared, Hfresh.
Qed.

Lemma stale_timer_harmless_witness :
  form (@step ascii_builtins
          (TimerFires
             (length (timers (demo_world alice_storage false (lit "nobody")
                                (lit "pw")))))
          (snd (@submitListener ascii_builtins
                  (snd (@submitListener ascii_builtins
                          (demo_world alice_storage false (lit "nobody")
                             (lit "pw")))))))
  = form (snd (@submitListener ascii_builtins
                 (snd (@submitListener ascii_builtins
                         (demo_world alice_storage false (lit "nobody")
                            (lit "pw")))))).
Proof.
  exact (@stale_timer_harmless ascii_builtins
           (demo_world alice_storage false (lit "nobody") (lit "pw"))
           eq_refl).
Defined.

(** ** Submitting again *)

Lemma querySelector_insertBefore_other sel sel' n f : forall f',
  insertBefore sel' n f = Some f' -> sel n = false ->
  querySelector sel f' = querySelector sel f.
Proof.
  induction f as [|e c IHc s IHs]; intros f' Hi Hn; [discriminate|].
  simpl in Hi. destruct (sel' e).
  - injection Hi as <-. cbn [querySelector]. rewrite Hn. reflexivity.
  - destruct (insertBefore sel' n c) as [c'|].
    + injection Hi as <-. cbn [querySelector].
      rewrite (IHc c' eq_refl Hn). reflexivity.
    + destruct (insertBefore sel' n s) as [s'|]; [|discriminate].
      injection Hi as <-. cbn [querySelector].
      rewrite (IHs s' eq_refl Hn). reflexivity.
Qed.

Lemma querySelector_appendChild_other sel n f :
  sel n = false -> querySelector sel (appendChild n f) = querySelector sel f.
Proof.
  intros Hn. induction f as [|e c _ s IHs]; cbn [appendChild querySelector].
  - rewrite Hn. reflexivity.
  - rewrite IHs. reflexivity.
Qed.

Lemma querySelector_update_first_other sel sel' g f : forall f',
  update_first sel' g f = Some f' ->
  (forall e, sel' e = true -> sel e = false) ->
  (forall e, sel (g e) = sel e) ->
  querySelector sel f' = querySelector sel f.
Proof.
  induction f as [|e c IHc s IHs]; intros f' Hu Hd Hg; [discriminate|].
  simpl in Hu. destruct (sel' e) eqn:E'.
  - injection Hu as <-. cbn [querySelector].
    rewrite Hg, (Hd e E'). reflexivity.
  - destruct (update_first sel' g c) as [c'|].
    + injection Hu as <-. cbn [querySelector].
      rewrite (IHc c' eq_refl Hd Hg). reflexivity.
    + destruct (update_first sel' g s) as [s'|]; [|discriminate].
      injection Hu as <-. cbn [querySelector].
      rewrite (IHs s' eq_refl Hd Hg). reflexivity.
Qed.

Lemma querySelector_place_message_other sel m f :
  sel m = false ->
  querySelector sel (place_message m f) = querySelector sel f.
Proof.
  intros Hm. unfold place_message.
  destruct (insertBefore sel_submit_button m f) as [f'|] eqn:E.
  - apply (querySelector_insertBefore_other _ _ _ _ _ E Hm).
  - apply querySelector_appendChild_other, Hm.
Qed.

Lemma querySelector_disable_submit_other sel f :
  (forall e, sel_submit_button e = true -> sel e = false) ->
  (forall e, sel (set_disabled true e) = sel e) ->
  querySelector sel (disable_submit f) = querySelector sel f.
Proof.
  intros Hd Hg. unfold disable_submit.
  destruct (update_first _ _ f) as [f'|] eqn:E; [|reflexivity].
  apply (querySelector_update_first_other _ _ _ _ _ E Hd Hg).
Qed.

Lemma submit_button_not_input e name :
  sel_submit_button e = true ->
  jsstring_eqb (tagName e) (lit "input")
  && bool_decide (attr_name e = Some name) = false.
Proof.
  unfold sel_submit_button, jsstring_eqb. intros He.
  apply andb_true_iff in He as [He _]. apply bool_decide_eq_true_1 in He.
  rewrite He. reflexivity.
Qed.

(** In a form without messages the listener leaves the inputs where
    they are. *)
Lemma listener_inputs_kept `{Builtins} w :
  messages w = [] ->
  emailInput (snd (listener_model w)) = emailInput w
  /\ passwordInput (snd (listener_model w)) = passwordInput w.
Proof.
  intros Hmsg. unfold emailInput, passwordInput.
  assert (Hd : forall sel,
            (forall e, sel_submit_button e = true -> sel e = false) ->
            (forall e, sel (set_disabled true e) = sel e) ->
            (forall kind text',
               sel (message_element (next_id w) kind text') = false) ->
            querySelector sel (form (snd (listener_model w)))
            = querySelector sel (form w)).
  { intros sel Hs Hg Hm.
    destruct (listener_form_cases w) as [text [-> | ->]];
      unfold after_error, after_success; read_fields;
      rewrite (remove_all_none _ _ Hmsg).
    - apply querySelector_place_message_other, Hm.
    - rewrite (querySelector_disable_submit_other sel _ Hs Hg).
      apply querySelector_place_message_other, Hm. }
  split; apply Hd;
    first [intros e He; apply submit_button_not_input, He
          | intros; reflexivity].
Qed.

Lemma listener_storage `{Builtins} w :
  storage (snd (listener_model w))
  = if flag_written (fst (listener_model w)) (storage_full w)
    then <[SESSION_FLAG_KEY := lit "true"]> (storage w)
    else storage w.
Proof.
  unfold listener_model.
  destruct (emailInput w) as [ei|]; [destruct (passwordInput w) as [pi|]|];
    cbv zeta;
    repeat match goal with
      | |- context [if ?c then _ else _] =>
          lazymatch c with
          | context [flag_written] => fail
          | _ => destruct c
          end
      | |- context [match cleaned ?x with _ => _ end] => destruct (cleaned x)
      end;
    reflexivity.
Qed.

Lemma listener_storage_full `{Builtins} w :
  storage_full (snd (listener_model w)) = storage_full w.
Proof. listener_cases w; first [reflexivity | congruence]. Qed.

(** X16: in a form that holds no message, submitting again without
    touching the inputs gives the same outcome as the first submission,
    and the store after the second submission is the store after the
    first: the flag is written again with the same value. *)
Theorem resubmission `{Builtins} (w : world) :
  messages w = [] ->
  fst (submitListener (snd (submitListener w))) = fst (submitListener w)
  /\ storage (snd (submitListener (snd (submitListener w))))
     = storage (snd (submitListener w)).
Proof.
  intros Hmsg. rewrite !submitListener_run. cbn [fst snd].
  destruct (listener_inputs_kept w Hmsg) as [He Hp].
  assert (Hfst : fst (listener_model (snd (listener_model w)))
                 = fst (listener_model w)).
  { apply listener_outcome_congr; [exact He | exact Hp |].
    f_equal. rewrite listener_storage.
    destruct (flag_written _ _); [|reflexivity].
    apply lookup_insert_ne, keys_differ. }
  split; [rewrite Hfst; reflexivity|].
  rewrite (listener_storage (snd (listener_model w))).
  rewrite Hfst, listener_storage_full, listener_storage.
  destruct (flag_written _ _); [|reflexivity].
  apply insert_insert_eq.
Qed.

Lemma resubmission_witness :
  fst (@submitListener ascii_builtins
         (snd (@submitListener ascii_builtins
                 (demo_world alice_storage false (lit "alice@example.com")
                    (lit "pw")))))
  = fst (@submitListener ascii_builtins
           (demo_world alice_storage false (lit "alice@example.com")
              (lit "pw"))).
Proof.
  destruct (@resubmission ascii_builtins
              (demo_world alice_storage false (lit "alice@example.com")
                 (lit "pw"))
              eq_refl) as [Hfst _].
  exact Hfst.
Defined.

(** ** The submit button *)

Lemma querySelector_update_first_same sel g f :
  (forall e, sel (g e) = sel e) ->
  querySelector sel (default f (update_first sel g f))
  = g <$> querySelector sel f.
Proof.
  intros Hg. induction f as [|e c IHc s IHs]; [reflexivity|].
  cbn [update_first querySelector]. destruct (sel e) eqn:E.
  - simpl. rewrite Hg, E. reflexivity.
  - destruct (update_first sel g c) as [c'|] eqn:Ec.
    + simpl in IHc |- *. rewrite E, IHc.
      destruct (querySelector sel c) as [x|] eqn:Eq; [reflexivity|].
      apply (update_first_querySelector sel g) in Eq. congruence.
    + apply update_first_querySelector in Ec. rewrite Ec.
      destruct (update_first sel g s) as [s'|] eqn:Es;
        simpl in IHs |- *; rewrite E, Ec; exact IHs.
Qed.

(** X17: [showSuccessMessage] leaves the submit button disabled and
    [showErrorMessage] leaves it as it finds it, disabled or not: neither
    enables it again.  The button is the first one of the form cleared of
    messages. *)
Theorem submit_button_state (text : jsstring) (w : world) :
  querySelector sel_submit_button (form (snd (showErrorMessage text w)))
  = querySelector sel_submit_button (remove_all sel_form_message (form w))
  /\ querySelector sel_submit_button (form (snd (showSuccessMessage text w)))
     = set_disabled true
         <$> querySelector sel_submit_button
               (remove_all sel_form_message (form w)).
Proof.
  rewrite showErrorMessage_run, showSuccessMessage_run. cbn [snd].
  unfold after_error, after_success. read_fields. split.
  - apply querySelector_place_message_other. reflexivity.
  - unfold disable_submit.
    rewrite querySelector_update_first_same by reflexivity.
    rewrite querySelector_place_message_other by reflexivity.
    reflexivity.
Qed.

(** * The listener when access to storage is denied *)

(** Where storage is accessible the two listeners are the same. *)
Lemma submitListenerIn_accessible `{Builtins} w :
  submitListenerIn false w = submitListener w.
Proof. reflexivity. Qed.

(** C9: the claim holds of the write and fails of the read.  Where
    storage is accessible, a throwing write of the accepted path is caught
    and the only message is the failure text of the specification.  Where
    the browser denies access to storage, a submission that passes both
    validations throws [SecurityError] at the read of line 130, outside the
    [try]: the listener does not return normally and the world is left as
    it was, so no message is shown.  A submission that fails a validation
    never reaches storage and ends in its message as before. *)
Theorem storage_denied_escapes `{Builtins} :
  (forall w, submitListenerIn false w = submitListener w)
  /\ (forall w,
       fst (submitListenerIn false w) = Normal (Some Accepted) ->
       storage_full w = true ->
       messages (snd (submitListenerIn false w))
       = [message_element (next_id w) (lit "error")
            (lit "Sign-in failed. Please try again.")])
  /\ (forall w email password,
       enteredEmail w = Some email ->
       enteredPassword w = Some password ->
       isValidEmail (VString email) = true ->
       blank password = false ->
       submitListenerIn true w = (Throw SecurityError, w))
  /\ (forall w email password,
       enteredEmail w = Some email ->
       enteredPassword w = Some password ->
       isValidEmail (VString email) = false \/ blank password = true ->
       submitListenerIn true w = submitListener w).
Proof.
  split; [intros w; reflexivity|]. split; [|split].
  - intros w. rewrite submitListenerIn_accessible, submitListener_run.
    cbn [fst snd]. intros [= Ha] Hf.
    destruct (listener_write_fails w Ha Hf) as (email & reg & ->).
    exact (messages_after_error _ _).
  - intros w email password. unfold enteredEmail, enteredPassword,
      emailInput, passwordInput, submitListenerIn, localStorage.
    run_listener.
    destruct (querySelector sel_input_email (form w)) as [ei|];
      [|discriminate].
    destruct (querySelector sel_input_password (form w)) as [pi|];
      [|discriminate].
    cbn [fmap option_fmap option_map]. intros [= <-] [= <-] Hv Hb.
    rewrite Hv, password_test_blank, Hb. reflexivity.
  - intros w email password. unfold enteredEmail, enteredPassword,
      emailInput, passwordInput, submitListenerIn, submitListener,
      localStorage.
    run_listener.
    destruct (querySelector sel_input_email (form w)) as [ei|];
      [|discriminate].
    destruct (querySelector sel_input_password (form w)) as [pi|];
      [|discriminate].
    cbn [fmap option_fmap option_map]. intros [= <-] [= <-] Hv.
    rewrite !password_test_blank.
    destruct (isValidEmail (VString (trim (evalue ei)))); [|reflexivity].
    destruct Hv as [Hv|Hv]; [discriminate|]. rewrite Hv. reflexivity.
Qed.

Lemma storage_denied_escapes_witness :
  @submitListenerIn ascii_builtins true
    (demo_world alice_storage false (lit "alice@example.com") (lit "pw"))
  = (Throw SecurityError,
     demo_world alice_storage false (lit "alice@example.com") (lit "pw"))
  /\ messages
       (snd (@submitListenerIn ascii_builtins true
               (demo_world alice_storage false (lit "alice@example.com")
                  (lit "pw"))))
     = [].
Proof.
  destruct (@storage_denied_escapes ascii_builtins) as (_ & _ & Hesc & _).
  assert (E : @submitListenerIn ascii_builtins true
                (demo_world alice_storage false (lit "alice@example.com")
                   (lit "pw"))
              = (Throw SecurityError,
                 demo_world alice_storage false (lit "alice@example.com")
                   (lit "pw"))).
  { apply (Hesc _ (lit "alice@example.com") (lit "pw")); reflexivity. }
  split; [exact E|]. rewrite E. reflexivity.
Defined.
